(** * The TSO allocator manager of pd (server/tso/allocator_manager.go)

    A shallow embedding of [AllocatorManager] and of the operations it offers:
    registration of allocator groups, the per-group campaign helper, the
    update worker run by the allocator daemon, request dispatch and filtered
    enumeration.

    The manager drives collaborators it does not implement: the [Allocator]
    interface, [election.Leadership], [context.Context] and timers.  Their
    behaviour is a parameter of the development (class [Collaborators]); every
    call the manager makes to them is recorded, with its answer, in a trace,
    together with the lock and wait-group operations of the manager itself.
    Each Go function is a computation in the monad [M]: it threads the [World]
    (registry, collaborators' state, trace) and ends in an [Outcome].  Logging
    calls do not change any state and are left out. *)

From Stdlib Require Import ZArith Ascii String.
From stdpp Require Import gmap strings list fin_maps.

Open Scope string_scope.
Open Scope list_scope.

Set Warnings "-clear-no-such-hyp".

(** ** Go's [path] package, as far as [path.Join] needs it *)

Module GoPath.

Definition slash : ascii := "/"%char.
Definition dot : ascii := "."%char.

Definition is_slash (c : ascii) : bool := Ascii.eqb c slash.
Definition is_dot (c : ascii) : bool := Ascii.eqb c dot.

(** [r+k == n || path[r+k] == '/'] on the part of the input that is left. *)
Definition ends_element (rest : list ascii) : bool :=
  match rest with
  | [] => true
  | c :: _ => is_slash c
  end.

(** The inner loop of the [..] case:
    [for out.w > dotdot && out.index(out.w) != '/' { out.w-- }]. *)
Fixpoint backtrack (fuel : nat) (out : list ascii) (dotdot w : nat) : nat :=
  match fuel with
  | O => w
  | S fuel' =>
      if (dotdot <? w)%nat && negb (is_slash (nth w out slash))
      then backtrack fuel' out dotdot (w - 1)
      else w
  end.

(** The copy loop of a real element:
    [for ; r < n && path[r] != '/'; r++ { out.append(path[r]) }];
    returns the buffer and what is left of the input. *)
Fixpoint copy_element (rest out : list ascii) : list ascii * list ascii :=
  match rest with
  | [] => (out, [])
  | c :: rest' =>
      if is_slash c then (out, rest) else copy_element rest' (out ++ [c])
  end.

(** The main loop of [Clean].  [rest] is [path[r:]], [out] the bytes written
    so far ([out.w] is its length), [dotdot] the index where [..] must stop. *)
Fixpoint clean_loop (fuel : nat) (rooted : bool) (rest out : list ascii)
    (dotdot : nat) : list ascii :=
  match fuel with
  | O => out
  | S fuel' =>
      match rest with
      | [] => out
      | c :: rest1 =>
          if is_slash c then
            (* empty path element *)
            clean_loop fuel' rooted rest1 out dotdot
          else if is_dot c && ends_element rest1 then
            (* . element *)
            clean_loop fuel' rooted rest1 out dotdot
          else if is_dot c && is_dot (hd slash rest1) && ends_element (tl rest1) then
            (* .. element: remove to last / *)
            let rest2 := tl rest1 in
            if (dotdot <? length out)%nat then
              let w := backtrack (length out) out dotdot (length out - 1) in
              clean_loop fuel' rooted rest2 (take w out) dotdot
            else if negb rooted then
              let out1 := if (0 <? length out)%nat then out ++ [slash] else out in
              let out2 := out1 ++ [dot; dot] in
              clean_loop fuel' rooted rest2 out2 (length out2)
            else
              clean_loop fuel' rooted rest2 out dotdot
          else
            (* real path element: add slash if needed, copy element *)
            let out1 :=
              if (rooted && negb (length out =? 1)%nat)
                 || (negb rooted && negb (length out =? 0)%nat)
              then out ++ [slash] else out in
            let '(out2, rest') := copy_element rest out1 in
            clean_loop fuel' rooted rest' out2 dotdot
      end
  end.

(** [path.Clean] on bytes. *)
Definition clean_bytes (path : list ascii) : list ascii :=
  match path with
  | [] => [dot]
  | c :: rest =>
      let rooted := is_slash c in
      let out :=
        if rooted then clean_loop (length path) true rest [slash] 1
        else clean_loop (length path) false path [] 0 in
      match out with
      | [] => [dot]
      | _ => out
      end
  end.

Definition Clean (path : string) : string :=
  string_of_list_ascii (clean_bytes (list_ascii_of_string path)).

(** The loop of [Join] that builds [buf]. *)
Fixpoint join_buf (elem : list string) (buf : list ascii) : list ascii :=
  match elem with
  | [] => buf
  | e :: elem' =>
      let bytes := list_ascii_of_string e in
      match buf, bytes with
      | [], [] => join_buf elem' buf
      | [], _ => join_buf elem' bytes
      | _, _ => join_buf elem' (buf ++ slash :: bytes)
      end
  end.

(** [path.Join]: empty elements at the front are ignored, the rest is joined
    with slashes and cleaned; all elements empty gives the empty string. *)
Definition Join (elem : list string) : string :=
  if (sum_list (String.length <$> elem) =? 0)%nat then ""
  else string_of_list_ascii (clean_bytes (join_buf elem [])).

(** A path element that Clean copies as it is: not empty, no slash, neither
    "." nor "..". *)
Definition is_plain_element (e : list ascii) : bool :=
  match e with
  | [] => false
  | _ => forallb (fun c => negb (is_slash c)) e
         && negb (bool_decide (e = [dot])) && negb (bool_decide (e = [dot; dot]))
  end.

(** The bytes of "/e1/e2/.../en". *)
Definition absolute (es : list (list ascii)) : list ascii :=
  concat (map (cons slash) es).

(** The slash [Clean] writes before a real element, if any. *)
Definition separator (rooted : bool) (out : list ascii) : list ascii :=
  if (rooted && negb (length out =? 1)%nat) || (negb rooted && negb (length out =? 0)%nat)
  then [slash] else [].

(** A label that is one plain path element. *)
Definition plain_label (s : string) : bool :=
  is_plain_element (list_ascii_of_string s).

(** A path of the form "/e1/.../en", n > 0, of plain elements. *)
Definition clean_absolute (p : string) : Prop :=
  exists es, es <> [] /\ Forall (fun e => is_plain_element e = true) es /\
             list_ascii_of_string p = absolute es.

End GoPath.

(** ** Data model *)

(** Handles of objects the manager only passes around. *)
Definition Ctx := nat.          (* context.Context *)
Definition CancelFunc := nat.   (* context.CancelFunc *)
Definition Leadership := nat.   (* *election.Leadership *)
Definition Member := nat.       (* *member.Member *)
Definition Ticker := nat.       (* *time.Ticker *)
Definition DurationFn := nat.   (* func() time.Duration *)
Definition Duration := Z.       (* time.Duration, nanoseconds *)

Definition Millisecond : Duration := 1000000%Z.

Definition leaderTickInterval : Duration := (50 * Millisecond)%Z.
Definition defaultAllocatorLeaderLease : Z := 3%Z.

(** A Go pointer: [None] is nil. *)
Abbreviation ptr A := (option A) (only parsing).

(** pdpb.Timestamp *)
Record Timestamp := mkTimestamp { Physical : Z; Logical : Z }.

Definition zeroTimestamp : Timestamp := mkTimestamp 0 0.

(** Go [error] values.  [ErrGetAllocator args] is what
    [errs.ErrGetAllocator.FastGenByArgs(args)] builds; every other error class
    is [ErrOther]. *)
Inductive error :=
| ErrGetAllocator (args : string)
| ErrOther (code : string).

(** Modelled from the spec: the two allocator variants, whose declarations
    (global_allocator.go, local_allocator.go) are not part of the file.  A
    value records the arguments of its constructor; [gta_ptr] and [lta_ptr]
    are its address. *)
Record GlobalTSOAllocator := mkGlobalTSOAllocator {
  gta_ptr : nat;
  gta_leadership : Leadership;
  gta_rootPath : string;
  gta_saveInterval : Duration;
  gta_maxResetTSGap : DurationFn
}.

Record LocalTSOAllocator := mkLocalTSOAllocator {
  lta_ptr : nat;
  lta_member : Member;
  lta_leadership : Leadership;
  lta_rootPath : string;
  lta_dcLocation : string;
  lta_saveInterval : Duration;
  lta_maxResetTSGap : DurationFn
}.

(** The [Allocator] interface value held by a group. *)
Inductive Allocator :=
| GlobalAllocator (a : GlobalTSOAllocator)
| LocalAllocator (a : LocalTSOAllocator).

(** The type assertion of [allocator] to a pointer to LocalTSOAllocator, in
    its comma-ok form. *)
Definition asLocalTSOAllocator (a : Allocator) : ptr LocalTSOAllocator :=
  match a with
  | LocalAllocator l => Some l
  | GlobalAllocator _ => None
  end.

Record allocatorGroup := mkAllocatorGroup {
  ag_dcLocation : string;
  ag_parentCtx : Ctx;
  ag_parentCancel : CancelFunc;
  ag_leadership : Leadership;
  ag_allocator : Allocator
}.

#[global] Instance Timestamp_eq_dec : EqDecision Timestamp.
Proof. solve_decision. Defined.
#[global] Instance error_eq_dec : EqDecision error.
Proof. solve_decision. Defined.
#[global] Instance GlobalTSOAllocator_eq_dec : EqDecision GlobalTSOAllocator.
Proof. solve_decision. Defined.
#[global] Instance LocalTSOAllocator_eq_dec : EqDecision LocalTSOAllocator.
Proof. solve_decision. Defined.
#[global] Instance Allocator_eq_dec : EqDecision Allocator.
Proof. solve_decision. Defined.
#[global] Instance allocatorGroup_eq_dec : EqDecision allocatorGroup.
Proof. solve_decision. Defined.

(** What [CheckAllocatorLeader] reports about the current leader. *)
Definition LeaderInfo := string.

(** Which case of the select in the leading loop fired. *)
Inductive SelectCase := CaseTick | CaseDone.

(** ** Calls to the collaborators

    [extcall X] is a call whose answer has type [X]. *)
Inductive extcall : Type -> Type :=
(* Allocator *)
| Initialize (a : Allocator) : extcall (option error)
| UpdateTSO (a : Allocator) : extcall (option error)
| GenerateTSO (a : Allocator) (count : Z) : extcall (Timestamp * option error)
| Reset (a : Allocator) : extcall unit
| IsInitialized (a : Allocator) : extcall bool
(* LocalTSOAllocator *)
| CheckAllocatorLeader (a : LocalTSOAllocator) : extcall (option LeaderInfo * Z * bool)
| WatchAllocatorLeader (a : LocalTSOAllocator) (ctx : Ctx) (leader : LeaderInfo) (rev : Z)
    : extcall unit
| CampaignAllocatorLeader (a : LocalTSOAllocator) (lease : Z) : extcall (option error)
| IsStillAllocatorLeader (a : LocalTSOAllocator) : extcall bool
| EnableAllocatorLeader (a : LocalTSOAllocator) : extcall unit
(* election.Leadership *)
| LeadershipCheck (l : Leadership) : extcall bool
| LeadershipReset (l : Leadership) : extcall unit
(* context: [CtxDone c] is [select { case <-c.Done(): true; default: false }] *)
| CtxDone (c : Ctx) : extcall bool
| WithCancel (parent : Ctx) : extcall (Ctx * CancelFunc)
| CallCancel (f : CancelFunc) : extcall unit
(* time *)
| NewTicker (d : Duration) : extcall Ticker
| TickerStop (t : Ticker) : extcall unit
| Sleep (d : Duration) : extcall unit
(* [select { case <-t.C: ...; case <-c.Done(): ... }] *)
| SelectTickOrDone (t : Ticker) (c : Ctx) : extcall SelectCase.

(** Goroutines started with [go]. *)
Inductive Task :=
| TaskAllocatorLeaderLoop (parent : Ctx) (a : ptr LocalTSOAllocator)
| TaskKeepAllocatorLeader (a : LocalTSOAllocator) (ctx : Ctx)
| TaskUpdateAllocator (ag : ptr allocatorGroup).

Inductive Event :=
| EvCall {X : Type} (c : extcall X) (x : X)
| EvLock | EvUnlock | EvRLock | EvRUnlock
| EvWgAdd (n : Z) | EvWgDone | EvWgWait
| EvGo (t : Task).

(** The collaborators: the state they live in and how each call answers and
    changes it.  [GlobalDCLocation] is config.GlobalDCLocation and
    [UpdateTimestampStep] the package constant of that name; [range_order]
    is the order in which a [for ... range] visits a map, which Go leaves
    unspecified apart from visiting every entry once. *)
Class Collaborators := {
  Ext : Type;
  handle : forall X, extcall X -> Ext -> X * Ext;
  GlobalDCLocation : string;
  UpdateTimestampStep : Duration;
  range_order : gmap string (ptr allocatorGroup) -> list (string * ptr allocatorGroup);
  range_order_perm : forall m, range_order m ≡ₚ map_to_list m
}.

(** AllocatorGroupFilter: a predicate on a group, which may consult the
    collaborators (is the allocator initialized, is the lease held). *)
Definition AllocatorGroupFilter `{Collaborators} := allocatorGroup -> Ext -> bool.

(** The manager. [sync.RWMutex] and [sync.WaitGroup] appear through their
    events in the trace. *)
Record AllocatorManager := mkAllocatorManager {
  allocatorGroups : gmap string (ptr allocatorGroup);
  member : Member;
  rootPath : string;
  saveInterval : Duration;
  maxResetTSGap : DurationFn
}.

Record World `{Collaborators} := mkWorld {
  am : AllocatorManager;
  ext : Ext;
  trace : list Event;
  next_ptr : nat
}.

(** How a call ends: it returns, it panics, or it is still running when the
    step budget of a loop is used up. *)
Inductive Outcome (A : Type) :=
| Returned (a : A)
| Panicked (msg : string)
| Running.
Arguments Returned {A} a.
Arguments Panicked {A} msg.
Arguments Running {A}.

Section Monad.
Context `{Collaborators}.

Definition M (A : Type) : Type := World -> Outcome A * World.

Definition ret {A} (a : A) : M A := fun w => (Returned a, w).

Definition bind {A B} (m : M A) (k : A -> M B) : M B := fun w =>
  match m w with
  | (Returned a, w') => k a w'
  | (Panicked msg, w') => (Panicked msg, w')
  | (Running, w') => (Running, w')
  end.

Definition panic {A} (msg : string) : M A := fun w => (Panicked msg, w).

Definition running {A} : M A := fun w => (Running, w).

(** [defer d] followed by [body]: [d] runs when [body] returns or panics,
    not while it is still running. *)
Definition defer {A} (d : M unit) (body : M A) : M A := fun w =>
  match body w with
  | (Running, w') => (Running, w')
  | (r, w') =>
      match d w' with
      | (Returned _, w'') => (r, w'')
      | (Panicked msg, w'') => (Panicked msg, w'')
      | (Running, w'') => (Running, w'')
      end
  end.

Definition emit (e : Event) : M unit := fun w =>
  (Returned tt, mkWorld _ (am w) (ext w) (trace w ++ [e]) (next_ptr w)).

(** A call to a collaborator: answered by [handle], recorded in the trace. *)
Definition call {X} (c : extcall X) : M X := fun w =>
  let r := handle X c (ext w) in
  (Returned (fst r), mkWorld _ (am w) (snd r) (trace w ++ [EvCall c (fst r)]) (next_ptr w)).

Definition go (t : Task) : M unit := emit (EvGo t).

Definition get_am : M AllocatorManager := fun w => (Returned (am w), w).

Definition get_ext : M Ext := fun w => (Returned (ext w), w).

Definition set_allocatorGroups (m : gmap string (ptr allocatorGroup)) : M unit := fun w =>
  let a := am w in
  (Returned tt,
   mkWorld _ (mkAllocatorManager m (member a) (rootPath a) (saveInterval a) (maxResetTSGap a))
     (ext w) (trace w) (next_ptr w)).

(** The address of a newly allocated object. *)
Definition fresh_ptr : M nat := fun w =>
  (Returned (next_ptr w), mkWorld _ (am w) (ext w) (trace w) (S (next_ptr w))).

(** [p.field] on a pointer. *)
Definition deref {A} (p : ptr A) : M A :=
  match p with
  | Some a => ret a
  | None => panic "invalid memory address or nil pointer dereference"
  end.

End Monad.

Notation "x <- m ;; k" := (bind m (fun x => k))
  (at level 100, m at next level, right associativity).
Notation "m ;; k" := (bind m (fun _ => k))
  (at level 100, right associativity).

(** ** The manager's operations *)

Section Operations.
Context `{Collaborators}.

Definition NewAllocatorManager (m : Member) (rootPath : string)
    (saveInterval : Duration) (maxResetTSGap : DurationFn) : AllocatorManager :=
  mkAllocatorManager ∅ m rootPath saveInterval maxResetTSGap.

(** Modelled from the spec: NewGlobalTSOAllocator and NewLocalTSOAllocator
    (global_allocator.go, local_allocator.go) build a new allocator from
    their arguments. *)
Definition NewGlobalTSOAllocator (leadership : Leadership) (rootPath : string)
    (saveInterval : Duration) (maxResetTSGap : DurationFn) : M Allocator :=
  p <- fresh_ptr ;;
  ret (GlobalAllocator
         (mkGlobalTSOAllocator p leadership rootPath saveInterval maxResetTSGap)).

Definition NewLocalTSOAllocator (member : Member) (leadership : Leadership)
    (rootPath dcLocation : string) (saveInterval : Duration)
    (maxResetTSGap : DurationFn) : M Allocator :=
  p <- fresh_ptr ;;
  ret (LocalAllocator
         (mkLocalTSOAllocator p member leadership rootPath dcLocation
            saveInterval maxResetTSGap)).

Definition getAllocatorPath (a : AllocatorManager) (dcLocation : string) : string :=
  (* For backward compatibility, the global timestamp's store path will
     still use the old one *)
  if String.eqb dcLocation GlobalDCLocation then rootPath a
  else GoPath.Join [rootPath a; dcLocation].

(** [m[k]] on a map of pointers: nil when the key is absent. *)
Definition map_index (m : gmap string (ptr allocatorGroup)) (k : string)
    : ptr allocatorGroup :=
  match m !! k with
  | Some p => p
  | None => None
  end.

(** [v, exist := m[k]]. *)
Definition map_index_ok (m : gmap string (ptr allocatorGroup)) (k : string)
    : ptr allocatorGroup * bool :=
  match m !! k with
  | Some p => (p, true)
  | None => (None, false)
  end.

Definition resetAllocatorGroup (dcLocation : string) : M unit :=
  emit EvLock ;;
  defer (emit EvUnlock)
    (a <- get_am ;;
     let '(allocatorGroup, exist') := map_index_ok (allocatorGroups a) dcLocation in
     if exist' then
       ag <- deref allocatorGroup ;;
       call (Reset (ag_allocator ag)) ;;
       call (LeadershipReset (ag_leadership ag))
     else ret tt).

(** The leading loop of campaignAllocatorLeader: a 50ms ticker against the
    child context. *)
Fixpoint leaderTickLoop (fuel : nat) (leaderTicker : Ticker) (ctx : Ctx)
    (allocator : LocalTSOAllocator) : M unit :=
  match fuel with
  | O => running
  | S fuel' =>
      c <- call (SelectTickOrDone leaderTicker ctx) ;;
      match c with
      | CaseTick =>
          still <- call (IsStillAllocatorLeader allocator) ;;
          if negb still then ret tt
          else leaderTickLoop fuel' leaderTicker ctx allocator
      | CaseDone =>
          (* Server is closed and it should return nil. *)
          ret tt
      end
  end.

(** campaignAllocatorLeader from its keepalive goroutine on, that is, after
    its two defer statements. *)
Definition campaignLeading (fuel : nat) (ctx : Ctx) (allocator : LocalTSOAllocator)
    : M unit :=
  (* maintain the Local TSO Allocator leader *)
  go (TaskKeepAllocatorLeader allocator ctx) ;;
  err <- call (Initialize (LocalAllocator allocator)) ;;
  match err with
  | Some _ => ret tt
  | None =>
      call (EnableAllocatorLeader allocator) ;;
      leaderTicker <- call (NewTicker leaderTickInterval) ;;
      defer (call (TickerStop leaderTicker))
        (leaderTickLoop fuel leaderTicker ctx allocator)
  end.

Definition campaignAllocatorLeader (fuel : nat) (parentCtx : Ctx)
    (allocator : LocalTSOAllocator) : M unit :=
  err <- call (CampaignAllocatorLeader allocator defaultAllocatorLeaderLease) ;;
  match err with
  | Some _ => ret tt
  | None =>
      (* Start keepalive the Local TSO Allocator leadership and enable
         Local TSO service. *)
      cc <- call (WithCancel parentCtx) ;;
      defer (call (CallCancel (snd cc)))
        (defer (resetAllocatorGroup (lta_dcLocation allocator))
           (campaignLeading fuel (fst cc) allocator))
  end.

(** similar logic with leaderLoop in server/server.go *)
Fixpoint allocatorLeaderLoop (fuel : nat) (parentCtx : Ctx)
    (allocator : ptr LocalTSOAllocator) : M unit :=
  match fuel with
  | O => running
  | S fuel' =>
      done <- call (CtxDone parentCtx) ;;
      a <- deref allocator ;;
      if done then ret tt
      else
        r <- call (CheckAllocatorLeader a) ;;
        let '(allocatorLeader, rev, checkAgain) := r in
        if checkAgain then allocatorLeaderLoop fuel' parentCtx allocator
        else
          match allocatorLeader with
          | Some leader =>
              (* WatchAllocatorLeader will keep looping and never return
                 unless the Local TSO Allocator leader has changed. *)
              call (WatchAllocatorLeader a parentCtx leader rev)
          | None => ret tt
          end ;;
          campaignAllocatorLeader fuel' parentCtx a ;;
          allocatorLeaderLoop fuel' parentCtx allocator
  end.

(** SetUpAllocator is used to set up an allocator, which will initialize the
    allocator and put it into allocator daemon. *)
Definition SetUpAllocator (parentCtx : Ctx) (parentCancel : CancelFunc)
    (dcLocation : string) (leadership : Leadership) : M (option error) :=
  a <- get_am ;;
  allocator <-
    (if String.eqb dcLocation GlobalDCLocation then
       NewGlobalTSOAllocator leadership (getAllocatorPath a dcLocation)
         (saveInterval a) (maxResetTSGap a)
     else
       NewLocalTSOAllocator (member a) leadership (getAllocatorPath a dcLocation)
         dcLocation (saveInterval a) (maxResetTSGap a)) ;;
  emit EvLock ;;
  defer (emit EvUnlock)
    ((* Update or create a new allocatorGroup *)
     a <- get_am ;;
     set_allocatorGroups
       (<[dcLocation :=
            Some (mkAllocatorGroup dcLocation parentCtx parentCancel leadership allocator)]>
          (allocatorGroups a)) ;;
     (* Different kinds of allocators have different setup works to do *)
     if String.eqb dcLocation GlobalDCLocation then
       (* Because Global TSO Allocator only depends on PD leader's
          leadership, so we can directly initialize it here. *)
       a <- get_am ;;
       ag <- deref (map_index (allocatorGroups a) dcLocation) ;;
       err <- call (Initialize (ag_allocator ag)) ;;
       match err with
       | Some e => ret (Some e)
       | None => ret None
       end
     else
       (* Join in a Local TSO Allocator election *)
       let localTSOAllocator := asLocalTSOAllocator allocator in
       go (TaskAllocatorLeaderLoop parentCtx localTSOAllocator) ;;
       ret None).

(** updateAllocator is used to update the allocator in the group. *)
Definition updateAllocator (ag : ptr allocatorGroup) : M unit :=
  defer (emit EvWgDone)
    (g <- deref ag ;;
     done <- call (CtxDone (ag_parentCtx g)) ;;
     if done then
       (* Resetting the allocator will clear TSO in memory *)
       call (Reset (ag_allocator g))
     else
       ok <- call (LeadershipCheck (ag_leadership g)) ;;
       if negb ok then call (Sleep (200 * Millisecond)%Z)
       else
         err <- call (UpdateTSO (ag_allocator g)) ;;
         match err with
         | Some _ => call (CallCancel (ag_parentCancel g))
         | None => ret tt
         end).

(** HandleTSORequest forwards TSO allocation requests to correct TSO
    Allocators. *)
Definition HandleTSORequest (dcLocation : string) (count : Z)
    : M (Timestamp * option error) :=
  emit EvRLock ;;
  defer (emit EvRUnlock)
    (a <- get_am ;;
     let '(allocatorGroup, exist') := map_index_ok (allocatorGroups a) dcLocation in
     if negb exist' then
       let err :=
         ErrGetAllocator (dcLocation +:+ " allocator not found, generate timestamp failed") in
       ret (zeroTimestamp, Some err)
     else
       ag <- deref allocatorGroup ;;
       call (GenerateTSO (ag_allocator ag) count)).

(** Modelled from the spec: slice.AnyOf and slice.NoneOf (pkg/slice) run the
    predicate over the indices of the slice; NoneOf holds when it is true at
    no index. *)
Definition slice_AnyOf {A} (s : list A) (p : nat -> bool) : bool :=
  existsb p (seq 0 (length s)).

Definition slice_NoneOf {A} (s : list A) (p : nat -> bool) : bool :=
  negb (slice_AnyOf s p).

(** [filters[i](ag)] *)
Definition apply_filter (filters : list AllocatorGroupFilter) (ag : allocatorGroup)
    (e : Ext) (i : nat) : bool :=
  match filters !! i with
  | Some f => f ag e
  | None => false
  end.

(** The range loop of getAllocatorGroups over the entries in visiting order. *)
Fixpoint collectAllocatorGroups (filters : list AllocatorGroupFilter) (e : Ext)
    (entries : list (string * ptr allocatorGroup))
    (allocatorGroups : list (ptr allocatorGroup)) : list (ptr allocatorGroup) :=
  match entries with
  | [] => allocatorGroups
  | (_, ag) :: entries' =>
      match ag with
      | None => collectAllocatorGroups filters e entries' allocatorGroups
      | Some g =>
          if slice_NoneOf filters (apply_filter filters g e)
          then collectAllocatorGroups filters e entries' (allocatorGroups ++ [ag])
          else collectAllocatorGroups filters e entries' allocatorGroups
      end
  end.

Definition getAllocatorGroups (filters : list AllocatorGroupFilter)
    : M (list (ptr allocatorGroup)) :=
  emit EvRLock ;;
  defer (emit EvRUnlock)
    (a <- get_am ;;
     e <- get_ext ;;
     ret (collectAllocatorGroups filters e (range_order (allocatorGroups a)) [])).

(** GetAllocator get the allocator by dc-location. *)
Definition GetAllocator (dcLocation : string) : M (option Allocator * option error) :=
  emit EvRLock ;;
  defer (emit EvRUnlock)
    (a <- get_am ;;
     let '(allocatorGroup, exist') := map_index_ok (allocatorGroups a) dcLocation in
     if negb exist' then
       ret (None, Some (ErrGetAllocator (dcLocation +:+ " allocator not found")))
     else
       ag <- deref allocatorGroup ;;
       ret (Some (ag_allocator ag), None)).

(** The range loop of GetAllocators. *)
Fixpoint appendAllocators (ags : list (ptr allocatorGroup)) (allocators : list Allocator)
    : M (list Allocator) :=
  match ags with
  | [] => ret allocators
  | ag :: ags' =>
      g <- deref ag ;;
      appendAllocators ags' (allocators ++ [ag_allocator g])
  end.

(** GetAllocators get all allocators with some filters. *)
Definition GetAllocators (filters : list AllocatorGroupFilter) : M (list Allocator) :=
  ags <- getAllocatorGroups filters ;;
  appendAllocators ags [].

(** Modelled from the spec: the two built-in filters (filter.go).
    FilterUninitialized excludes groups whose allocator is not initialized,
    FilterUnavailableLeadership those whose leadership check fails. *)
Definition FilterUninitialized : AllocatorGroupFilter :=
  fun ag e => negb (fst (handle _ (IsInitialized (ag_allocator ag)) e)).

Definition FilterUnavailableLeadership : AllocatorGroupFilter :=
  fun ag e => negb (fst (handle _ (LeadershipCheck (ag_leadership ag)) e)).

(** The fan-out of one tick of the daemon. *)
Fixpoint spawnUpdates (allocatorGroups : list (ptr allocatorGroup)) : M unit :=
  match allocatorGroups with
  | [] => ret tt
  | ag :: rest =>
      emit (EvWgAdd 1) ;;
      go (TaskUpdateAllocator ag) ;;
      spawnUpdates rest
  end.

Fixpoint daemonLoop (fuel : nat) (tsTicker : Ticker) (serverCtx : Ctx) : M unit :=
  match fuel with
  | O => running
  | S fuel' =>
      c <- call (SelectTickOrDone tsTicker serverCtx) ;;
      match c with
      | CaseTick =>
          (* Filter out allocators without leadership and uninitialized *)
          allocatorGroups <-
            getAllocatorGroups [FilterUninitialized; FilterUnavailableLeadership] ;;
          (* Update each allocator concurrently *)
          spawnUpdates allocatorGroups ;;
          emit EvWgWait ;;
          daemonLoop fuel' tsTicker serverCtx
      | CaseDone => ret tt
      end
  end.

(** AllocatorDaemon is used to update every allocator's TSO. *)
Definition AllocatorDaemon (fuel : nat) (serverCtx : Ctx) : M unit :=
  tsTicker <- call (NewTicker UpdateTimestampStep) ;;
  defer (call (TickerStop tsTicker))
    (daemonLoop fuel tsTicker serverCtx).

End Operations.

(** ** Reading traces *)

Definition is_Reset_of (a : Allocator) (ev : Event) : bool :=
  match ev with
  | EvCall c _ =>
      match c with
      | Reset a' => bool_decide (a' = a)
      | _ => false
      end
  | _ => false
  end.

Definition is_LeadershipReset_of (l : Leadership) (ev : Event) : bool :=
  match ev with
  | EvCall c _ =>
      match c with
      | LeadershipReset l' => bool_decide (l' = l)
      | _ => false
      end
  | _ => false
  end.

Definition is_CallCancel_of (f : CancelFunc) (ev : Event) : bool :=
  match ev with
  | EvCall c _ =>
      match c with
      | CallCancel f' => bool_decide (f' = f)
      | _ => false
      end
  | _ => false
  end.

Definition is_GenerateTSO (ev : Event) : bool :=
  match ev with
  | EvCall c _ =>
      match c with
      | GenerateTSO _ _ => true
      | _ => false
      end
  | _ => false
  end.

Definition is_Initialize (ev : Event) : bool :=
  match ev with
  | EvCall c _ =>
      match c with
      | Initialize _ => true
      | _ => false
      end
  | _ => false
  end.

(** Is the leadership [l] reset before the exclusive lock is next released? *)
Fixpoint leadership_reset_before_unlock (l : Leadership) (tr : list Event) : bool :=
  match tr with
  | [] => false
  | EvUnlock :: _ => false
  | ev :: tr' => is_LeadershipReset_of l ev || leadership_reset_before_unlock l tr'
  end.

(** Reset pairing for the group [g] along a trace: every [Reset] of the
    group's allocator is made with the exclusive lock held ([locked]) and is
    followed, before that lock is released, by a [Reset] of its leadership. *)
Fixpoint reset_paired (g : allocatorGroup) (locked : bool) (tr : list Event) : bool :=
  match tr with
  | [] => true
  | EvLock :: tr' => reset_paired g true tr'
  | EvUnlock :: tr' => reset_paired g false tr'
  | ev :: tr' =>
      (if is_Reset_of (ag_allocator g) ev
       then locked && leadership_reset_before_unlock (ag_leadership g) tr'
       else true)
      && reset_paired g locked tr'
  end.

(** Every [GenerateTSO] of the trace is called with no shared lock held;
    [readers] counts the shared locks held at the start. *)
Fixpoint generate_outside_rlock (readers : nat) (tr : list Event) : bool :=
  match tr with
  | [] => true
  | EvRLock :: tr' => generate_outside_rlock (S readers) tr'
  | EvRUnlock :: tr' => generate_outside_rlock (pred readers) tr'
  | ev :: tr' =>
      (if is_GenerateTSO ev then (readers =? 0)%nat else true)
      && generate_outside_rlock readers tr'
  end.

(** The events a computation adds to the trace of the world it starts in. *)
Definition events `{Collaborators} {A} (m : M A) (w : World) : list Event :=
  drop (length (trace w)) (trace (snd (m w))).

(** No entry of the registry holds a nil pointer. *)
Definition registry_wf (m : gmap string (ptr allocatorGroup)) : Prop :=
  forall dc, m !! dc ≠ Some None.

(** The arguments of one SetUpAllocator call, and a sequence of calls. *)
Record SetUpArgs := mkSetUpArgs {
  sa_parentCtx : Ctx;
  sa_parentCancel : CancelFunc;
  sa_dcLocation : string;
  sa_leadership : Leadership
}.

Fixpoint setUpAll `{Collaborators} (calls : list SetUpArgs) (w : World) : World :=
  match calls with
  | [] => w
  | c :: calls' =>
      setUpAll calls'
        (snd (SetUpAllocator (sa_parentCtx c) (sa_parentCancel c) (sa_dcLocation c)
                (sa_leadership c) w))
  end.

(** The world of a manager just made by NewAllocatorManager. *)
Definition newWorld `{Collaborators} (m : Member) (rootPath : string)
    (saveInterval : Duration) (maxResetTSGap : DurationFn) (e : Ext) : World :=
  mkWorld _ (NewAllocatorManager m rootPath saveInterval maxResetTSGap) e [] 0.

(** ** Vocabulary of the statements *)

Section Vocabulary.
Context `{Collaborators}.

Definition notFound (dcLocation : string) : error :=
  ErrGetAllocator (dcLocation +:+ " allocator not found, generate timestamp failed").

(** The error of the not-found branch: an ErrGetAllocator whose argument
    starts with the label. *)
Definition is_ErrGetAllocator_for (dcLocation : string)
    (r : Outcome (Timestamp * option error)) : Prop :=
  exists ts rest, r = Returned (ts, Some (ErrGetAllocator (dcLocation +:+ rest))).

(** The allocator SetUpAllocator builds in the world [w]. *)
Definition setUpAllocatorOf (w : World) (dcLocation : string) (leadership : Leadership)
    : Allocator :=
  if String.eqb dcLocation GlobalDCLocation then
    GlobalAllocator
      (mkGlobalTSOAllocator (next_ptr w) leadership (getAllocatorPath (am w) dcLocation)
         (saveInterval (am w)) (maxResetTSGap (am w)))
  else
    LocalAllocator
      (mkLocalTSOAllocator (next_ptr w) (member (am w)) leadership
         (getAllocatorPath (am w) dcLocation) dcLocation
         (saveInterval (am w)) (maxResetTSGap (am w))).

(** The group SetUpAllocator registers. *)
Definition setUpGroupOf (w : World) (parentCtx : Ctx) (parentCancel : CancelFunc)
    (dcLocation : string) (leadership : Leadership) : allocatorGroup :=
  mkAllocatorGroup dcLocation parentCtx parentCancel leadership
    (setUpAllocatorOf w dcLocation leadership).

Definition withGroup (a : AllocatorManager) (dcLocation : string) (g : allocatorGroup)
    : AllocatorManager :=
  mkAllocatorManager (<[dcLocation := Some g]> (allocatorGroups a))
    (member a) (rootPath a) (saveInterval a) (maxResetTSGap a).

(** The world in which the deferred calls of the helper are registered:
    after the campaign and the opening of the child context. *)
Definition afterCampaign (parentCtx : Ctx) (allocator : LocalTSOAllocator) (w : World)
    : World :=
  snd (call (WithCancel parentCtx)
         (snd (call (CampaignAllocatorLeader allocator defaultAllocatorLeaderLease) w))).

(** The child context and its cancel function. *)
Definition childScope (parentCtx : Ctx) (allocator : LocalTSOAllocator) (w : World)
    : Ctx * CancelFunc :=
  fst (handle _ (WithCancel parentCtx)
         (snd (handle _ (CampaignAllocatorLeader allocator defaultAllocatorLeaderLease)
                 (ext w)))).

(** The two deferred calls, in the order in which they run, from the world
    [w2] in which the helper's body ended. *)
Definition campaignExit (parentCtx : Ctx) (allocator : LocalTSOAllocator) (w w2 : World)
    : World :=
  snd (call (CallCancel (snd (childScope parentCtx allocator w)))
         (snd (resetAllocatorGroup (lta_dcLocation allocator) w2))).

(** No filter of the list excludes [g]. *)
Definition kept (filters : list AllocatorGroupFilter) (e : Ext) (g : allocatorGroup) : bool :=
  forallb (fun f => negb (f g e)) filters.

Definition kept_ptr (filters : list AllocatorGroupFilter) (e : Ext)
    (p : ptr allocatorGroup) : bool :=
  match p with
  | Some g => kept filters e g
  | None => false
  end.

(** A computation that leaves the manager, and so its registry, as it is. *)
Definition keeps_am {A} (m : M A) : Prop := forall w, am (snd (m w)) = am w.

(** The operations of the manager, to be run in any order. *)
Inductive ManagerOp :=
| OpSetUp (c : SetUpArgs)
| OpReset (dcLocation : string)
| OpUpdate (ag : ptr allocatorGroup)
| OpHandle (dcLocation : string) (count : Z)
| OpEnumerate (filters : list AllocatorGroupFilter)
| OpCampaign (fuel : nat) (parentCtx : Ctx) (a : LocalTSOAllocator)
| OpLeaderLoop (fuel : nat) (parentCtx : Ctx) (a : ptr LocalTSOAllocator).

Definition runOp (op : ManagerOp) (w : World) : World :=
  match op with
  | OpSetUp c =>
      snd (SetUpAllocator (sa_parentCtx c) (sa_parentCancel c) (sa_dcLocation c)
             (sa_leadership c) w)
  | OpReset dcLocation => snd (resetAllocatorGroup dcLocation w)
  | OpUpdate ag => snd (updateAllocator ag w)
  | OpHandle dcLocation count => snd (HandleTSORequest dcLocation count w)
  | OpEnumerate filters => snd (getAllocatorGroups filters w)
  | OpCampaign fuel parentCtx a => snd (campaignAllocatorLeader fuel parentCtx a w)
  | OpLeaderLoop fuel parentCtx a => snd (allocatorLeaderLoop fuel parentCtx a w)
  end.

Definition runOps (ops : list ManagerOp) (w : World) : World :=
  fold_left (fun w op => runOp op w) ops w.

(** The labels the SetUpAllocator calls of a run supply. *)
Definition setUpLabels (ops : list ManagerOp) : list string :=
  omap (fun op => match op with OpSetUp c => Some (sa_dcLocation c) | _ => None end) ops.

End Vocabulary.

(** ** Vocabulary of the further properties *)

(** What the registry lock is held as. *)
Inductive LockState := LockFree | ReadHeld | WriteHeld.

(** One event against the lock: taking a lock that is held, or releasing one
    that is not, is an error ([None]). *)
Definition lock_step (s : option LockState) (e : Event) : option LockState :=
  match s with
  | None => None
  | Some st =>
      match e with
      | EvLock => match st with LockFree => Some WriteHeld | _ => None end
      | EvUnlock => match st with WriteHeld => Some LockFree | _ => None end
      | EvRLock => match st with LockFree => Some ReadHeld | _ => None end
      | EvRUnlock => match st with ReadHeld => Some LockFree | _ => None end
      | _ => Some st
      end
  end.

(** The state of the lock after a trace that starts with the lock free. *)
Definition lock_state (tr : list Event) : option LockState :=
  fold_left lock_step tr (Some LockFree).

Definition is_lock_event (e : Event) : bool :=
  match e with
  | EvLock | EvUnlock | EvRLock | EvRUnlock => true
  | _ => false
  end.

(** An event that is not one of the lock. *)
Definition no_lock (e : Event) : bool := negb (is_lock_event e).

(** The events of the exclusive lock. *)
Definition is_exclusive_lock (e : Event) : bool :=
  match e with
  | EvLock | EvUnlock => true
  | _ => false
  end.

Definition shared_lock_only (e : Event) : bool := negb (is_exclusive_lock e).

(** Events that undo leadership: a reset of an allocator or of a leadership,
    a cancel, the stop of a ticker. *)
Definition is_teardown (e : Event) : bool :=
  match e with
  | EvCall c _ =>
      match c with
      | Reset _ | LeadershipReset _ | CallCancel _ | TickerStop _ => true
      | _ => false
      end
  | _ => false
  end.

(** The two calls of the leading loop. *)
Definition is_leading_event (e : Event) : bool :=
  match e with
  | EvCall c _ =>
      match c with
      | SelectTickOrDone _ _ | IsStillAllocatorLeader _ => true
      | _ => false
      end
  | _ => false
  end.

Definition is_WgDone (e : Event) : bool :=
  match e with
  | EvWgDone => true
  | _ => false
  end.

Definition is_UpdateTSO (e : Event) : bool :=
  match e with
  | EvCall c _ =>
      match c with
      | UpdateTSO _ => true
      | _ => false
      end
  | _ => false
  end.

(** What an allocator was built with. *)
Definition allocatorPtr (a : Allocator) : nat :=
  match a with
  | GlobalAllocator g => gta_ptr g
  | LocalAllocator l => lta_ptr l
  end.

Definition allocatorLeadership (a : Allocator) : Leadership :=
  match a with
  | GlobalAllocator g => gta_leadership g
  | LocalAllocator l => lta_leadership l
  end.

Definition allocatorRootPath (a : Allocator) : string :=
  match a with
  | GlobalAllocator g => gta_rootPath g
  | LocalAllocator l => lta_rootPath l
  end.

Section FurtherVocabulary.
Context `{Collaborators}.

(** A relation between the world a computation starts in and the one it
    ends in holds of every run of [m]. *)
Definition preserves (R : World -> World -> Prop) {A} (m : M A) : Prop :=
  forall w, R w (snd (m w)).

(** [w'] extends the trace of [w] by events that all satisfy [P]. *)
Definition adds (P : Event -> bool) (w w' : World) : Prop :=
  exists evs, trace w' = trace w ++ evs /\ forallb P evs = true.

(** [w'] has the manager and the allocation counter of [w]. *)
Definition same_heap (w w' : World) : Prop :=
  am w' = am w /\ next_ptr w' = next_ptr w.

(** [w'] extends the trace of [w] by events that leave the lock as it was,
    free. *)
Definition lock_neutral (w w' : World) : Prop :=
  exists evs, trace w' = trace w ++ evs /\ lock_state evs = Some LockFree.

(** [m] takes the registry lock as a reader only, and has released it when
    it stops. *)
Definition reader {A} (m : M A) : Prop :=
  forall w, exists evs,
    trace (snd (m w)) = trace w ++ evs /\
    lock_state evs = Some LockFree /\
    forallb shared_lock_only evs = true.

(** A computation without a loop: it returns or panics. *)
Definition ends {A} (m : M A) : Prop := forall w, fst (m w) <> Running.

(** The group stored under [dc] agrees with its key and with the manager's
    configuration. *)
Definition group_consistent (a : AllocatorManager) (dc : string) (g : allocatorGroup)
    : Prop :=
  ag_dcLocation g = dc /\
  allocatorLeadership (ag_allocator g) = ag_leadership g /\
  allocatorRootPath (ag_allocator g) = getAllocatorPath a dc /\
  match ag_allocator g with
  | GlobalAllocator _ => dc = GlobalDCLocation
  | LocalAllocator l =>
      dc <> GlobalDCLocation /\ lta_dcLocation l = dc /\ lta_member l = member a
  end.

(** The invariant of the registry: its groups are consistent with their keys,
    their allocators were allocated before [next_ptr], and no two labels
    share an allocator. *)
Definition registry_inv (w : World) : Prop :=
  (forall dc g, allocatorGroups (am w) !! dc = Some (Some g) ->
     group_consistent (am w) dc g /\ allocatorPtr (ag_allocator g) < next_ptr w) /\
  (forall dc1 dc2 g1 g2,
     allocatorGroups (am w) !! dc1 = Some (Some g1) ->
     allocatorGroups (am w) !! dc2 = Some (Some g2) ->
     dc1 <> dc2 ->
     allocatorPtr (ag_allocator g1) <> allocatorPtr (ag_allocator g2)).

(** The events of the fan-out of one tick over the groups [ags]. *)
Definition fanOut (ags : list (ptr allocatorGroup)) : list Event :=
  flat_map (fun ag => [EvWgAdd 1; EvGo (TaskUpdateAllocator ag)]) ags.

(** The allocator of [g] is initialized and its leadership is available, in
    the collaborators' state [e]. *)
Definition serviceable (e : Ext) (g : allocatorGroup) : bool :=
  fst (handle _ (IsInitialized (ag_allocator g)) e) &&
  fst (handle _ (LeadershipCheck (ag_leadership g)) e).

(** The registered groups that are serviceable in [e], in visiting order. *)
Definition daemonGroups (a : AllocatorManager) (e : Ext) : list (ptr allocatorGroup) :=
  List.filter (fun p => match p with Some g => serviceable e g | None => false end)
    (snd <$> range_order (allocatorGroups a)).

(** The events of one tick of the daemon that updates the groups [ags]. *)
Definition daemonRound (t : Ticker) (serverCtx : Ctx) (ags : list (ptr allocatorGroup))
    : list Event :=
  [EvCall (SelectTickOrDone t serverCtx) CaseTick; EvRLock; EvRUnlock]
    ++ fanOut ags ++ [EvWgWait].

(** The set-up calls that are not for the GLOBAL label. *)
Definition localCalls (calls : list SetUpArgs) : list SetUpArgs :=
  List.filter (fun c => negb (String.eqb (sa_dcLocation c) GlobalDCLocation)) calls.

(** [e] is the start of the election loop that the set-up call [c] asks for:
    a goroutine on the call's parent context and on a local allocator of the
    call's label and leadership. *)
Definition starts_loop_of (c : SetUpArgs) (e : Event) : Prop :=
  exists a,
    e = EvGo (TaskAllocatorLeaderLoop (sa_parentCtx c) (Some a)) /\
    lta_dcLocation a = sa_dcLocation c /\
    lta_leadership a = sa_leadership c.

End FurtherVocabulary.

Definition is_leaderLoop_start (e : Event) : bool :=
  match e with
  | EvGo (TaskAllocatorLeaderLoop _ _) => true
  | _ => false
  end.

(** A round of the leading loop that found the lease still held. *)
Definition is_held_round (e : Event) : bool :=
  match e with
  | EvCall c x =>
      match c in extcall X return X -> bool with
      | SelectTickOrDone _ _ => fun x => match x with CaseTick => true | CaseDone => false end
      | IsStillAllocatorLeader _ => fun x => x
      | _ => fun _ => false
      end x
  | _ => false
  end.

(** The collaborator calls resetAllocatorGroup makes for the registry entry
    it finds. *)
Definition resetEvents (entry : option (ptr allocatorGroup)) : list Event :=
  match entry with
  | Some (Some g) =>
      [EvCall (Reset (ag_allocator g)) tt; EvCall (LeadershipReset (ag_leadership g)) tt]
  | _ => []
  end.

(** How a loop of the leading phase was left: the child context was done, or
    the lease was found lost at a tick. *)
Definition left_leading (t : Ticker) (ctx : Ctx) (a : LocalTSOAllocator)
    (ticks : list Event) : Prop :=
  exists rounds,
    forallb is_held_round rounds = true /\
    (ticks = rounds ++ [EvCall (SelectTickOrDone t ctx) CaseDone] \/
     ticks = rounds ++ [EvCall (SelectTickOrDone t ctx) CaseTick;
                        EvCall (IsStillAllocatorLeader a) false]).

(** The events of campaignAllocatorLeader up to its leading loop, for the
    child scope [cc] and the ticker [t]. *)
Definition leadingPrefix (parentCtx : Ctx) (a : LocalTSOAllocator) (cc : Ctx * CancelFunc)
    (t : Ticker) : list Event :=
  [EvCall (CampaignAllocatorLeader a defaultAllocatorLeaderLease) None;
   EvCall (WithCancel parentCtx) cc;
   EvGo (TaskKeepAllocatorLeader a (fst cc));
   EvCall (Initialize (LocalAllocator a)) None;
   EvCall (EnableAllocatorLeader a) tt;
   EvCall (NewTicker leaderTickInterval) t].

(** ** A concrete set of collaborators

    A small scripted cluster, used to run the operations on concrete inputs:
    contexts are cancelled by the cancel function of the same number, an
    allocator serves once it is initialized and its lease is held, and the
    operations named in [d_failing] fail. *)

Module Demo.

Record DemoExt := mkDemoExt {
  d_cancelled : list Ctx;
  d_initialized : list Allocator;
  d_leases : list Leadership;
  d_logical : Z;
  d_failing : list string;
  d_fresh : nat;
  d_ticks : nat
}.

Definition fails (op : string) (e : DemoExt) : bool :=
  bool_decide (op ∈ d_failing e).

Definition allocLeadership (a : Allocator) : Leadership :=
  match a with
  | GlobalAllocator g => gta_leadership g
  | LocalAllocator l => lta_leadership l
  end.

Definition demo_handle (X : Type) (c : extcall X) (e : DemoExt) : X * DemoExt :=
  match c in extcall T return T * DemoExt with
  | Initialize a =>
      if fails "Initialize" e then (Some (ErrOther "etcd: load timestamp failed"), e)
      else (None,
            mkDemoExt (d_cancelled e) (a :: d_initialized e) (d_leases e) (d_logical e)
              (d_failing e) (d_fresh e) (d_ticks e))
  | UpdateTSO a =>
      if fails "UpdateTSO" e then (Some (ErrOther "etcd: save timestamp failed"), e)
      else (None, e)
  | GenerateTSO a count =>
      if bool_decide (a ∈ d_initialized e) && bool_decide (allocLeadership a ∈ d_leases e)
      then (mkTimestamp 0 (d_logical e + count), None,
            mkDemoExt (d_cancelled e) (d_initialized e) (d_leases e) (d_logical e + count)
              (d_failing e) (d_fresh e) (d_ticks e))
      else (zeroTimestamp, Some (ErrOther "not leader"), e)
  | Reset a =>
      (tt,
       mkDemoExt (d_cancelled e) (filter (fun a' => a' ≠ a) (d_initialized e)) (d_leases e)
         (d_logical e) (d_failing e) (d_fresh e) (d_ticks e))
  | IsInitialized a => (bool_decide (a ∈ d_initialized e), e)
  | CheckAllocatorLeader a => (None, 0%Z, false, e)
  | WatchAllocatorLeader a ctx leader rev => (tt, e)
  | CampaignAllocatorLeader a lease =>
      if fails "CampaignAllocatorLeader" e then (Some (ErrOther "campaign failed"), e)
      else (None,
            mkDemoExt (d_cancelled e) (d_initialized e) (lta_leadership a :: d_leases e)
              (d_logical e) (d_failing e) (d_fresh e) (d_ticks e))
  | IsStillAllocatorLeader a =>
      (bool_decide (0 < d_ticks e)%nat,
       mkDemoExt (d_cancelled e) (d_initialized e) (d_leases e) (d_logical e)
         (d_failing e) (d_fresh e) (pred (d_ticks e)))
  | EnableAllocatorLeader a => (tt, e)
  | LeadershipCheck l => (bool_decide (l ∈ d_leases e), e)
  | LeadershipReset l =>
      (tt,
       mkDemoExt (d_cancelled e) (d_initialized e) (filter (fun l' => l' ≠ l) (d_leases e))
         (d_logical e) (d_failing e) (d_fresh e) (d_ticks e))
  | CtxDone c => (bool_decide (c ∈ d_cancelled e), e)
  | WithCancel parent =>
      (d_fresh e, d_fresh e,
       mkDemoExt (d_cancelled e) (d_initialized e) (d_leases e) (d_logical e)
         (d_failing e) (S (d_fresh e)) (d_ticks e))
  | CallCancel f =>
      (tt,
       mkDemoExt (f :: d_cancelled e) (d_initialized e) (d_leases e) (d_logical e)
         (d_failing e) (d_fresh e) (d_ticks e))
  | NewTicker d =>
      (d_fresh e,
       mkDemoExt (d_cancelled e) (d_initialized e) (d_leases e) (d_logical e)
         (d_failing e) (S (d_fresh e)) (d_ticks e))
  | TickerStop t => (tt, e)
  | Sleep d => (tt, e)
  | SelectTickOrDone t c =>
      (if bool_decide (c ∈ d_cancelled e) then CaseDone else CaseTick, e)
  end.

#[local] Instance demo : Collaborators := {|
  Ext := DemoExt;
  handle := demo_handle;
  GlobalDCLocation := "global";
  UpdateTimestampStep := (50 * Millisecond)%Z;
  range_order := map_to_list;
  range_order_perm := fun m => reflexivity (map_to_list m)
|}.

(** Context 1 is alive and the lease 7 is held; [failing] scripts the
    operations that fail. *)
Definition cluster (failing : list string) : DemoExt :=
  mkDemoExt [] [] [7] 100 failing 10 2.

(** A manager rooted at "/pd/tso", before any set-up. *)
Definition world0 (failing : list string) : World :=
  newWorld 0 "/pd/tso" (3000 * Millisecond)%Z 0 (cluster failing).

(** The same after [SetUpAllocator(ctx 1, cancel 1, "global", lease 7)]. *)
Definition worldG (failing : list string) : World :=
  snd (SetUpAllocator 1 1 "global" 7 (world0 failing)).

Definition globalAlloc : Allocator :=
  GlobalAllocator (mkGlobalTSOAllocator 0 7 "/pd/tso" (3000 * Millisecond)%Z 0).

Definition globalGroup : allocatorGroup :=
  mkAllocatorGroup "global" 1 1 7 globalAlloc.

(** [w] with its trace emptied and the parent context 1 cancelled. *)
Definition cancel_parent (w : World) : World :=
  let e := ext w in
  mkWorld _ (am w)
    (mkDemoExt (1 :: d_cancelled e) (d_initialized e) (d_leases e) (d_logical e)
       (d_failing e) (d_fresh e) (d_ticks e))
    [] (next_ptr w).

Definition worldCancelled : World := cancel_parent (worldG []).

(** [w] with its trace emptied. *)
Definition quiet (w : World) : World :=
  mkWorld _ (am w) (ext w) [] (next_ptr w).

(** The world after [SetUpAllocator(ctx 2, cancel 2, "dc-1", lease 8)] as
    well, and the allocator and group that call makes. *)
Definition worldL (failing : list string) : World :=
  quiet (snd (SetUpAllocator 2 2 "dc-1" 8 (worldG failing))).

Definition localAlloc : LocalTSOAllocator :=
  mkLocalTSOAllocator 1 0 8 "/pd/tso/dc-1" "dc-1" (3000 * Millisecond)%Z 0.

Definition localGroup : allocatorGroup :=
  mkAllocatorGroup "dc-1" 2 2 8 (LocalAllocator localAlloc).

(** Four set-up calls over three labels. *)
Definition fourCalls : list SetUpArgs :=
  [mkSetUpArgs 1 1 "global" 7; mkSetUpArgs 2 2 "dc-1" 8;
   mkSetUpArgs 3 3 "dc-2" 9; mkSetUpArgs 4 4 "dc-1" 8].

(** A filter that excludes the group of the label "global". *)
Definition FilterGlobal : AllocatorGroupFilter :=
  fun ag _ => String.eqb (ag_dcLocation ag) "global".

(** A registry in which a nil pointer is stored under "dc-nil". *)
Definition worldNil : World :=
  let w := worldG [] in
  mkWorld _
    (mkAllocatorManager (<["dc-nil" := None]> (allocatorGroups (am w))) 0 "/pd/tso"
       (3000 * Millisecond)%Z 0)
    (ext w) [] (next_ptr w).

End Demo.

(** * Properties *)

Ltac run :=
  unfold defer, bind, deref, ret, panic, call, emit, go, get_am, get_ext,
    set_allocatorGroups, fresh_ptr; simpl.

Ltac unit_answers :=
  repeat match goal with
         | |- context [fst (handle unit ?c ?e)] =>
             let u := fresh "u" in
             generalize (fst (handle unit c e)); intros u; destruct u
         end.

Section Basics.
Context `{Collaborators}.

Lemma events_of_trace {A} (m : M A) (w : World) (evs : list Event) :
  trace (snd (m w)) = trace w ++ evs -> events m w = evs.
Proof. intros E. unfold events. rewrite E. apply drop_app_length. Qed.

Lemma map_index_ok_lookup (m : gmap string (ptr allocatorGroup)) (k : string) :
  map_index_ok m k =
    match m !! k with
    | Some p => (p, true)
    | None => (None, false)
    end.
Proof. reflexivity. Qed.

End Basics.

(** ** The update worker *)

Section UpdateAllocator.
Context `{Collaborators}.

(** What the worker does when the parent context of the group is done. *)
Lemma updateAllocator_parent_done (g : allocatorGroup) (w : World) :
  fst (handle _ (CtxDone (ag_parentCtx g)) (ext w)) = true ->
  fst (updateAllocator (Some g) w) = Returned tt /\
  events (updateAllocator (Some g)) w =
    [EvCall (CtxDone (ag_parentCtx g)) true;
     EvCall (Reset (ag_allocator g)) tt;
     EvWgDone].
Proof.
  intros Hd. split.
  - unfold updateAllocator. run. rewrite Hd. simpl. unit_answers. reflexivity.
  - apply events_of_trace. unfold updateAllocator. run. rewrite Hd. simpl.
    unit_answers. rewrite <- !app_assoc. reflexivity.
Qed.

(** What the worker does when the group does not hold its leadership. *)
Lemma updateAllocator_not_leader (g : allocatorGroup) (w : World) :
  let done := handle _ (CtxDone (ag_parentCtx g)) (ext w) in
  let check := handle _ (LeadershipCheck (ag_leadership g)) (snd done) in
  fst done = false -> fst check = false ->
  fst (updateAllocator (Some g) w) = Returned tt /\
  events (updateAllocator (Some g)) w =
    [EvCall (CtxDone (ag_parentCtx g)) false;
     EvCall (LeadershipCheck (ag_leadership g)) false;
     EvCall (Sleep (200 * Millisecond)%Z) tt;
     EvWgDone].
Proof.
  intros done check Hd Hc. subst done check. split.
  - unfold updateAllocator. run. rewrite Hd. simpl. rewrite Hc. simpl.
    unit_answers. reflexivity.
  - apply events_of_trace. unfold updateAllocator. run. rewrite Hd. simpl.
    rewrite Hc. simpl. unit_answers. rewrite <- !app_assoc. reflexivity.
Qed.

(** C2: for a group whose parent context is not cancelled and whose
    leadership check succeeds, the update worker calls UpdateTSO; when that
    fails it calls the group's parentCancel and returns, and when it succeeds
    it returns without calling parentCancel. *)
Theorem updateAllocator_update_failure_cancels_parent (g : allocatorGroup) (w : World) :
  let done := handle _ (CtxDone (ag_parentCtx g)) (ext w) in
  let check := handle _ (LeadershipCheck (ag_leadership g)) (snd done) in
  let update := handle _ (UpdateTSO (ag_allocator g)) (snd check) in
  fst done = false ->
  fst check = true ->
  fst (updateAllocator (Some g) w) = Returned tt /\
  events (updateAllocator (Some g)) w =
    [EvCall (CtxDone (ag_parentCtx g)) false;
     EvCall (LeadershipCheck (ag_leadership g)) true;
     EvCall (UpdateTSO (ag_allocator g)) (fst update)]
    ++ match fst update with
       | Some _ => [EvCall (CallCancel (ag_parentCancel g)) tt]
       | None => []
       end
    ++ [EvWgDone].
Proof.
  intros done check update Hd Hc. subst done check update. split.
  - unfold updateAllocator. run. rewrite Hd. simpl. rewrite Hc. simpl.
    destruct (fst (handle _ (UpdateTSO (ag_allocator g)) _)); simpl;
      unit_answers; reflexivity.
  - apply events_of_trace. unfold updateAllocator. run. rewrite Hd. simpl.
    rewrite Hc. simpl.
    destruct (fst (handle _ (UpdateTSO (ag_allocator g)) _)) eqn:Hu; simpl;
      unit_answers; rewrite <- !app_assoc; reflexivity.
Qed.

End UpdateAllocator.

(** ** Resetting a group *)

Section ResetAllocatorGroup.
Context `{Collaborators}.

Lemma resetAllocatorGroup_present (dcLocation : string) (g : allocatorGroup) (w : World) :
  allocatorGroups (am w) !! dcLocation = Some (Some g) ->
  fst (resetAllocatorGroup dcLocation w) = Returned tt /\
  events (resetAllocatorGroup dcLocation) w =
    [EvLock;
     EvCall (Reset (ag_allocator g)) tt;
     EvCall (LeadershipReset (ag_leadership g)) tt;
     EvUnlock] /\
  am (snd (resetAllocatorGroup dcLocation w)) = am w.
Proof.
  intros Hg. unfold resetAllocatorGroup. split; [|split].
  - run. rewrite map_index_ok_lookup, Hg. simpl. unit_answers. reflexivity.
  - apply events_of_trace. run. rewrite map_index_ok_lookup, Hg. simpl.
    unit_answers. rewrite <- !app_assoc. reflexivity.
  - run. rewrite map_index_ok_lookup, Hg. reflexivity.
Qed.

Lemma resetAllocatorGroup_absent (dcLocation : string) (w : World) :
  allocatorGroups (am w) !! dcLocation = None ->
  fst (resetAllocatorGroup dcLocation w) = Returned tt /\
  events (resetAllocatorGroup dcLocation) w = [EvLock; EvUnlock] /\
  ext (snd (resetAllocatorGroup dcLocation w)) = ext w.
Proof.
  intros Hg. unfold resetAllocatorGroup. split; [|split].
  - run. rewrite map_index_ok_lookup, Hg. reflexivity.
  - apply events_of_trace. run. rewrite map_index_ok_lookup, Hg. simpl.
    rewrite <- !app_assoc. reflexivity.
  - run. rewrite map_index_ok_lookup, Hg. reflexivity.
Qed.

Lemma reset_paired_locked_section (g : allocatorGroup) :
  reset_paired g false
    [EvLock;
     EvCall (Reset (ag_allocator g)) tt;
     EvCall (LeadershipReset (ag_leadership g)) tt;
     EvUnlock] = true.
Proof. simpl. rewrite !bool_decide_eq_true_2 by reflexivity. reflexivity. Qed.

(** C1, as the code has it: the reset of a registered group made by
    resetAllocatorGroup resets the group's allocator and then its leadership
    between taking and releasing the exclusive lock, so the pairing holds on
    that path; the update worker, when the parent context is done, resets
    the allocator only, without the lock and without a leadership reset. *)
Theorem resetAllocatorGroup_pairs_resets (dcLocation : string) (g : allocatorGroup)
    (w : World) :
  allocatorGroups (am w) !! dcLocation = Some (Some g) ->
  (events (resetAllocatorGroup dcLocation) w =
     [EvLock;
      EvCall (Reset (ag_allocator g)) tt;
      EvCall (LeadershipReset (ag_leadership g)) tt;
      EvUnlock] /\
   reset_paired g false (events (resetAllocatorGroup dcLocation) w) = true) /\
  (fst (handle _ (CtxDone (ag_parentCtx g)) (ext w)) = true ->
   events (updateAllocator (Some g)) w =
     [EvCall (CtxDone (ag_parentCtx g)) true;
      EvCall (Reset (ag_allocator g)) tt;
      EvWgDone] /\
   reset_paired g false (events (updateAllocator (Some g)) w) = false).
Proof.
  intros Hg. split.
  - destruct (resetAllocatorGroup_present dcLocation g w Hg) as (_ & Hev & _).
    rewrite Hev. split; [reflexivity | apply reset_paired_locked_section].
  - intros Hd. destruct (updateAllocator_parent_done g w Hd) as [_ Hev].
    rewrite Hev. split; [reflexivity|].
    simpl. rewrite bool_decide_eq_true_2 by reflexivity. reflexivity.
Qed.

End ResetAllocatorGroup.

(** ** Dispatching a request *)

Section HandleTSORequest.
Context `{Collaborators}.

Lemma HandleTSORequest_absent (dcLocation : string) (count : Z) (w : World) :
  allocatorGroups (am w) !! dcLocation = None ->
  fst (HandleTSORequest dcLocation count w) =
    Returned (zeroTimestamp, Some (notFound dcLocation)) /\
  events (HandleTSORequest dcLocation count) w = [EvRLock; EvRUnlock] /\
  ext (snd (HandleTSORequest dcLocation count w)) = ext w.
Proof.
  intros Hg. unfold HandleTSORequest. split; [|split].
  - run. rewrite map_index_ok_lookup, Hg. reflexivity.
  - apply events_of_trace. run. rewrite map_index_ok_lookup, Hg. simpl.
    rewrite <- !app_assoc. reflexivity.
  - run. rewrite map_index_ok_lookup, Hg. reflexivity.
Qed.

Lemma HandleTSORequest_present (dcLocation : string) (count : Z) (g : allocatorGroup)
    (w : World) :
  allocatorGroups (am w) !! dcLocation = Some (Some g) ->
  let answer := handle _ (GenerateTSO (ag_allocator g) count) (ext w) in
  fst (HandleTSORequest dcLocation count w) = Returned (fst answer) /\
  events (HandleTSORequest dcLocation count) w =
    [EvRLock; EvCall (GenerateTSO (ag_allocator g) count) (fst answer); EvRUnlock] /\
  ext (snd (HandleTSORequest dcLocation count w)) = snd answer.
Proof.
  intros Hg answer. subst answer. unfold HandleTSORequest. split; [|split].
  - run. rewrite map_index_ok_lookup, Hg. reflexivity.
  - apply events_of_trace. run. rewrite map_index_ok_lookup, Hg. simpl.
    rewrite <- !app_assoc. reflexivity.
  - run. rewrite map_index_ok_lookup, Hg. reflexivity.
Qed.

Lemma HandleTSORequest_nil (dcLocation : string) (count : Z) (w : World) :
  allocatorGroups (am w) !! dcLocation = Some None ->
  exists msg, fst (HandleTSORequest dcLocation count w) = Panicked msg.
Proof.
  intros Hg. unfold HandleTSORequest. run. rewrite map_index_ok_lookup, Hg.
  simpl. eauto.
Qed.

(** C3, as the code has it: the shared lock taken by HandleTSORequest is
    released by a deferred call, when the function returns; for a label
    present in the registry the call to GenerateTSO is made between RLock
    and RUnlock, with the shared lock held. *)
Theorem HandleTSORequest_generates_under_rlock (dcLocation : string) (count : Z)
    (g : allocatorGroup) (w : World) :
  allocatorGroups (am w) !! dcLocation = Some (Some g) ->
  events (HandleTSORequest dcLocation count) w =
    [EvRLock;
     EvCall (GenerateTSO (ag_allocator g) count)
       (fst (handle _ (GenerateTSO (ag_allocator g) count) (ext w)));
     EvRUnlock] /\
  generate_outside_rlock 0 (events (HandleTSORequest dcLocation count) w) = false.
Proof.
  intros Hg.
  destruct (HandleTSORequest_present dcLocation count g w Hg) as (_ & Hev & _).
  rewrite Hev. split; reflexivity.
Qed.

(** C4: on a registry without nil entries, HandleTSORequest returns the zero
    timestamp with ErrGetAllocator carrying the label when the label is
    absent, and otherwise exactly the answer of GenerateTSO(count) of the
    registered group's allocator; so, allocators not producing
    ErrGetAllocator themselves, that error is returned exactly for the
    absent labels. *)
Theorem HandleTSORequest_result (dcLocation : string) (count : Z) (w : World) :
  registry_wf (allocatorGroups (am w)) ->
  match allocatorGroups (am w) !! dcLocation with
  | None =>
      fst (HandleTSORequest dcLocation count w) =
        Returned (zeroTimestamp, Some (notFound dcLocation))
  | Some p =>
      exists g, p = Some g /\
        fst (HandleTSORequest dcLocation count w) =
          Returned (fst (handle _ (GenerateTSO (ag_allocator g) count) (ext w)))
  end /\
  ((forall g args,
       allocatorGroups (am w) !! dcLocation = Some (Some g) ->
       snd (fst (handle _ (GenerateTSO (ag_allocator g) count) (ext w)))
         <> Some (ErrGetAllocator args)) ->
   (is_ErrGetAllocator_for dcLocation (fst (HandleTSORequest dcLocation count w))
    <-> allocatorGroups (am w) !! dcLocation = None)).
Proof.
  intros Hwf. split.
  - destruct (allocatorGroups (am w) !! dcLocation) as [[g|]|] eqn:Hg.
    + exists g. split; [reflexivity|].
      apply (HandleTSORequest_present dcLocation count g w Hg).
    + destruct (Hwf dcLocation Hg).
    + apply (HandleTSORequest_absent dcLocation count w Hg).
  - intros Hclass. split.
    + intros (ts & rest & Hr).
      destruct (allocatorGroups (am w) !! dcLocation) as [[g|]|] eqn:Hg.
      * destruct (HandleTSORequest_present dcLocation count g w Hg) as (Hres & _).
        rewrite Hres in Hr. inversion Hr as [Hans].
        exfalso. apply (Hclass g (dcLocation +:+ rest) eq_refl).
        rewrite Hans. reflexivity.
      * destruct (Hwf dcLocation Hg).
      * reflexivity.
    + intros Hg.
      destruct (HandleTSORequest_absent dcLocation count w Hg) as (Hres & _).
      exists zeroTimestamp, " allocator not found, generate timestamp failed".
      exact Hres.
Qed.

End HandleTSORequest.

(** ** Setting up allocators *)

Section SetUpAllocator.
Context `{Collaborators}.

Lemma SetUpAllocator_global (parentCtx : Ctx) (parentCancel : CancelFunc)
    (dcLocation : string) (leadership : Leadership) (w : World) :
  dcLocation = GlobalDCLocation ->
  let a := setUpAllocatorOf w dcLocation leadership in
  let g := setUpGroupOf w parentCtx parentCancel dcLocation leadership in
  let init := handle _ (Initialize a) (ext w) in
  SetUpAllocator parentCtx parentCancel dcLocation leadership w =
    (Returned (fst init),
     mkWorld _ (withGroup (am w) dcLocation g) (snd init)
       (trace w ++ [EvLock; EvCall (Initialize a) (fst init); EvUnlock])
       (S (next_ptr w))).
Proof.
  intros Hdc a g init. subst a g init.
  unfold SetUpAllocator, setUpGroupOf, setUpAllocatorOf, withGroup,
    NewGlobalTSOAllocator, NewLocalTSOAllocator, map_index.
  rewrite Hdc, String.eqb_refl. run. rewrite lookup_insert_eq. simpl.
  destruct (fst (handle _ (Initialize _) (ext w))) eqn:Hi; simpl;
    rewrite <- !app_assoc; reflexivity.
Qed.

Lemma SetUpAllocator_local (parentCtx : Ctx) (parentCancel : CancelFunc)
    (dcLocation : string) (leadership : Leadership) (w : World) :
  dcLocation <> GlobalDCLocation ->
  let a := setUpAllocatorOf w dcLocation leadership in
  let g := setUpGroupOf w parentCtx parentCancel dcLocation leadership in
  SetUpAllocator parentCtx parentCancel dcLocation leadership w =
    (Returned None,
     mkWorld _ (withGroup (am w) dcLocation g) (ext w)
       (trace w ++
        [EvLock; EvGo (TaskAllocatorLeaderLoop parentCtx (asLocalTSOAllocator a)); EvUnlock])
       (S (next_ptr w))).
Proof.
  intros Hdc a g. subst a g.
  unfold SetUpAllocator, setUpGroupOf, setUpAllocatorOf, withGroup,
    NewGlobalTSOAllocator, NewLocalTSOAllocator.
  apply String.eqb_neq in Hdc. rewrite Hdc. run.
  rewrite <- !app_assoc. reflexivity.
Qed.

(** Whatever the label, the call registers the new group under it and leaves
    the other entries alone. *)
Lemma SetUpAllocator_registry (parentCtx : Ctx) (parentCancel : CancelFunc)
    (dcLocation : string) (leadership : Leadership) (w : World) :
  allocatorGroups (am (snd (SetUpAllocator parentCtx parentCancel dcLocation leadership w))) =
    <[dcLocation := Some (setUpGroupOf w parentCtx parentCancel dcLocation leadership)]>
      (allocatorGroups (am w)).
Proof.
  destruct (decide (dcLocation = GlobalDCLocation)) as [Hdc|Hdc].
  - rewrite (SetUpAllocator_global _ _ _ _ _ Hdc). reflexivity.
  - rewrite (SetUpAllocator_local _ _ _ _ _ Hdc). reflexivity.
Qed.

Lemma SetUpAllocator_returns (parentCtx : Ctx) (parentCancel : CancelFunc)
    (dcLocation : string) (leadership : Leadership) (w : World) :
  exists err,
    fst (SetUpAllocator parentCtx parentCancel dcLocation leadership w) = Returned err.
Proof.
  destruct (decide (dcLocation = GlobalDCLocation)) as [Hdc|Hdc].
  - rewrite (SetUpAllocator_global _ _ _ _ _ Hdc). eauto.
  - rewrite (SetUpAllocator_local _ _ _ _ _ Hdc). eauto.
Qed.

(** C5: for the GLOBAL label SetUpAllocator calls Initialize on the new
    allocator before it returns and returns what Initialize answered, so an
    initialization error is returned, and the new group is registered under
    the label either way; for any other label it returns nil, having called
    no collaborator: the leader loop is only started as a goroutine. *)
Theorem SetUpAllocator_initialization (parentCtx : Ctx) (parentCancel : CancelFunc)
    (dcLocation : string) (leadership : Leadership) (w : World) :
  let a := setUpAllocatorOf w dcLocation leadership in
  let g := setUpGroupOf w parentCtx parentCancel dcLocation leadership in
  let res := SetUpAllocator parentCtx parentCancel dcLocation leadership w in
  allocatorGroups (am (snd res)) !! dcLocation = Some (Some g) /\
  (dcLocation = GlobalDCLocation ->
     fst res = Returned (fst (handle _ (Initialize a) (ext w))) /\
     events (SetUpAllocator parentCtx parentCancel dcLocation leadership) w =
       [EvLock; EvCall (Initialize a) (fst (handle _ (Initialize a) (ext w))); EvUnlock]) /\
  (dcLocation <> GlobalDCLocation ->
     fst res = Returned None /\
     ext (snd res) = ext w /\
     events (SetUpAllocator parentCtx parentCancel dcLocation leadership) w =
       [EvLock;
        EvGo (TaskAllocatorLeaderLoop parentCtx (asLocalTSOAllocator a));
        EvUnlock] /\
     existsb is_Initialize
       (events (SetUpAllocator parentCtx parentCancel dcLocation leadership) w) = false).
Proof.
  intros a g res. subst a g res. split; [|split].
  - rewrite SetUpAllocator_registry. apply lookup_insert_eq.
  - intros Hdc. split.
    + rewrite (SetUpAllocator_global _ _ _ _ _ Hdc). reflexivity.
    + apply events_of_trace. rewrite (SetUpAllocator_global _ _ _ _ _ Hdc).
      reflexivity.
  - intros Hdc.
    assert (Hev : events (SetUpAllocator parentCtx parentCancel dcLocation leadership) w =
              [EvLock;
               EvGo (TaskAllocatorLeaderLoop parentCtx
                       (asLocalTSOAllocator (setUpAllocatorOf w dcLocation leadership)));
               EvUnlock]).
    { apply events_of_trace. rewrite (SetUpAllocator_local _ _ _ _ _ Hdc). reflexivity. }
    rewrite Hev, (SetUpAllocator_local _ _ _ _ _ Hdc). repeat split.
Qed.

(** The allocator of a local group is a LocalTSOAllocator, so the loop is
    started on a non-nil pointer. *)
Lemma setUpAllocatorOf_local (w : World) (dcLocation : string) (leadership : Leadership) :
  dcLocation <> GlobalDCLocation ->
  exists l, asLocalTSOAllocator (setUpAllocatorOf w dcLocation leadership) = Some l /\
            lta_dcLocation l = dcLocation.
Proof.
  intros Hdc. unfold setUpAllocatorOf. apply String.eqb_neq in Hdc. rewrite Hdc.
  simpl. eauto.
Qed.

(** *** Sequences of calls *)

Lemma setUpAll_dom (calls : list SetUpArgs) (w : World) :
  dom (allocatorGroups (am (setUpAll calls w))) =
    dom (allocatorGroups (am w)) ∪ list_to_set (sa_dcLocation <$> calls).
Proof.
  revert w. induction calls as [|c calls IH]; intros w; simpl.
  - set_solver.
  - rewrite IH, SetUpAllocator_registry, dom_insert_L. set_solver.
Qed.

Lemma setUpAll_wf (calls : list SetUpArgs) (w : World) :
  registry_wf (allocatorGroups (am w)) ->
  registry_wf (allocatorGroups (am (setUpAll calls w))).
Proof.
  revert w. induction calls as [|c calls IH]; intros w Hwf; simpl; [exact Hwf|].
  apply IH. rewrite SetUpAllocator_registry. intros dc.
  destruct (decide (sa_dcLocation c = dc)) as [->|Hne].
  - rewrite lookup_insert_eq. discriminate.
  - rewrite lookup_insert_ne by exact Hne. apply Hwf.
Qed.

Lemma setUpAll_labels (calls : list SetUpArgs) (w : World) (dc : string) (g : allocatorGroup) :
  (forall dc' g', allocatorGroups (am w) !! dc' = Some (Some g') -> ag_dcLocation g' = dc') ->
  allocatorGroups (am (setUpAll calls w)) !! dc = Some (Some g) ->
  ag_dcLocation g = dc.
Proof.
  revert w. induction calls as [|c calls IH]; intros w Hw; simpl; [apply Hw|].
  apply IH. intros dc' g'. rewrite SetUpAllocator_registry.
  destruct (decide (sa_dcLocation c = dc')) as [->|Hne].
  - rewrite lookup_insert_eq. intros [= <-]. reflexivity.
  - rewrite lookup_insert_ne by exact Hne. apply Hw.
Qed.

Lemma list_to_set_remove_dups (l : list string) :
  (list_to_set (remove_dups l) : gset string) = list_to_set l.
Proof.
  apply set_eq. intros x. rewrite !elem_of_list_to_set. apply elem_of_remove_dups.
Qed.

Lemma size_list_to_set_labels (l : list string) :
  size (list_to_set l : gset string) = length (remove_dups l).
Proof.
  rewrite <- list_to_set_remove_dups. apply size_list_to_set, NoDup_remove_dups.
Qed.

(** C8: after any sequence of SetUpAllocator calls on a new manager the
    registry has exactly the supplied labels as keys, each visited once by
    a range over it, so its size is the number of distinct labels; every key
    holds a group of that label; and a call on a label that is already
    registered leaves the size as it is and puts the new group in place. *)
Theorem SetUpAllocator_unique_registration (calls : list SetUpArgs)
    (m : Member) (root : string) (si : Duration) (gap : DurationFn) (e : Ext) :
  let w := setUpAll calls (newWorld m root si gap e) in
  let registry := allocatorGroups (am w) in
  size registry = length (remove_dups (sa_dcLocation <$> calls)) /\
  dom registry = list_to_set (sa_dcLocation <$> calls) /\
  NoDup (fst <$> range_order registry) /\
  (forall dc, dc ∈ (sa_dcLocation <$> calls) ->
     exists g, registry !! dc = Some (Some g) /\ ag_dcLocation g = dc) /\
  (forall parentCtx parentCancel dc leadership,
     is_Some (registry !! dc) ->
     let w' := snd (SetUpAllocator parentCtx parentCancel dc leadership w) in
     size (allocatorGroups (am w')) = size registry /\
     allocatorGroups (am w') !! dc =
       Some (Some (setUpGroupOf w parentCtx parentCancel dc leadership))).
Proof.
  intros w registry.
  assert (Hdom : dom registry = list_to_set (sa_dcLocation <$> calls)).
  { subst registry w. rewrite setUpAll_dom. simpl. rewrite dom_empty_L. set_solver. }
  assert (Hwf : registry_wf registry).
  { subst registry w. apply setUpAll_wf. intros dc. simpl. rewrite lookup_empty.
    discriminate. }
  split; [|split; [|split; [|split]]].
  - rewrite <- size_dom, Hdom. apply size_list_to_set_labels.
  - exact Hdom.
  - rewrite range_order_perm. apply NoDup_fst_map_to_list.
  - intros dc Hin.
    assert (Hd : dc ∈ dom registry) by (rewrite Hdom; set_solver).
    apply elem_of_dom in Hd. destruct Hd as [[g|] Hg].
    + exists g. split; [exact Hg|].
      subst registry w. eapply setUpAll_labels; [|exact Hg].
      intros dc' g'. simpl. rewrite lookup_empty. discriminate.
    + destruct (Hwf dc Hg).
  - intros parentCtx parentCancel dc leadership Hsome w'. subst w'.
    rewrite SetUpAllocator_registry. split.
    + rewrite <- !size_dom, dom_insert_L.
      apply elem_of_dom in Hsome. f_equal. set_solver.
    + apply lookup_insert_eq.
Qed.

End SetUpAllocator.

(** ** Who writes the registry *)

Section RegistryWrites.
Context `{Collaborators}.

Lemma keeps_ret {A} (a : A) : keeps_am (ret a).
Proof. intros w. reflexivity. Qed.

Lemma keeps_panic {A} (msg : string) : keeps_am (panic (A := A) msg).
Proof. intros w. reflexivity. Qed.

Lemma keeps_running {A} : keeps_am (running (A := A)).
Proof. intros w. reflexivity. Qed.

Lemma keeps_emit (e : Event) : keeps_am (emit e).
Proof. intros w. reflexivity. Qed.

Lemma keeps_call {X} (c : extcall X) : keeps_am (call c).
Proof. intros w. reflexivity. Qed.

Lemma keeps_get_am : keeps_am get_am.
Proof. intros w. reflexivity. Qed.

Lemma keeps_get_ext : keeps_am get_ext.
Proof. intros w. reflexivity. Qed.

Lemma keeps_deref {A} (p : ptr A) : keeps_am (deref p).
Proof. destruct p; intros w; reflexivity. Qed.

Lemma keeps_bind {A B} (m : M A) (k : A -> M B) :
  keeps_am m -> (forall a, keeps_am (k a)) -> keeps_am (bind m k).
Proof.
  intros Hm Hk w. unfold bind. specialize (Hm w).
  destruct (m w) as [[a| |] w']; simpl in *; [|assumption..].
  rewrite Hk. exact Hm.
Qed.

Lemma keeps_defer {A} (d : M unit) (body : M A) :
  keeps_am d -> keeps_am body -> keeps_am (defer d body).
Proof.
  intros Hd Hb w. unfold defer. specialize (Hb w).
  destruct (body w) as [r w']; simpl in *. specialize (Hd w').
  destruct r; [| |assumption];
    destruct (d w') as [[]] ; simpl in *; congruence.
Qed.

Ltac keeps :=
  repeat first
    [ apply keeps_ret | apply keeps_panic | apply keeps_running | apply keeps_emit
    | apply keeps_call | apply keeps_get_am | apply keeps_get_ext | apply keeps_deref
    | apply keeps_defer | apply keeps_bind
    | match goal with
      | |- forall _, keeps_am _ => intro
      | |- keeps_am (match ?x with _ => _ end) => destruct x
      end ].

Lemma resetAllocatorGroup_keeps_am (dcLocation : string) :
  keeps_am (resetAllocatorGroup dcLocation).
Proof. unfold resetAllocatorGroup, go. keeps. Qed.

Lemma updateAllocator_keeps_am (ag : ptr allocatorGroup) : keeps_am (updateAllocator ag).
Proof. unfold updateAllocator. keeps. Qed.

Lemma HandleTSORequest_keeps_am (dcLocation : string) (count : Z) :
  keeps_am (HandleTSORequest dcLocation count).
Proof. unfold HandleTSORequest. keeps. Qed.

Lemma getAllocatorGroups_keeps_am (filters : list AllocatorGroupFilter) :
  keeps_am (getAllocatorGroups filters).
Proof. unfold getAllocatorGroups. keeps. Qed.

Lemma leaderTickLoop_keeps_am (fuel : nat) (t : Ticker) (ctx : Ctx) (a : LocalTSOAllocator) :
  keeps_am (leaderTickLoop fuel t ctx a).
Proof. induction fuel as [|fuel IH]; simpl; keeps. exact IH. Qed.

Lemma campaignAllocatorLeader_keeps_am (fuel : nat) (parentCtx : Ctx)
    (a : LocalTSOAllocator) :
  keeps_am (campaignAllocatorLeader fuel parentCtx a).
Proof.
  unfold campaignAllocatorLeader, campaignLeading, go. keeps;
    first [apply resetAllocatorGroup_keeps_am | apply leaderTickLoop_keeps_am].
Qed.

Lemma allocatorLeaderLoop_keeps_am (fuel : nat) (parentCtx : Ctx)
    (a : ptr LocalTSOAllocator) :
  keeps_am (allocatorLeaderLoop fuel parentCtx a).
Proof.
  induction fuel as [|fuel IH]; simpl; keeps;
    first [exact IH | apply leaderTickLoop_keeps_am].
Qed.

(** Only SetUpAllocator changes the registry: after any run of operations its
    keys are those it had plus the labels the SetUpAllocator calls supplied. *)
Lemma runOps_registry_dom (ops : list ManagerOp) (w : World) :
  dom (allocatorGroups (am (runOps ops w))) =
    dom (allocatorGroups (am w)) ∪ list_to_set (setUpLabels ops).
Proof.
  revert w. unfold runOps.
  induction ops as [|op ops IH]; intros w; simpl; [set_solver|].
  rewrite IH. destruct op; cbn [runOp omap list_omap].
  - rewrite SetUpAllocator_registry, dom_insert_L. set_solver.
  - rewrite (resetAllocatorGroup_keeps_am dcLocation w). reflexivity.
  - rewrite (updateAllocator_keeps_am ag w). reflexivity.
  - rewrite (HandleTSORequest_keeps_am dcLocation count w). reflexivity.
  - rewrite (getAllocatorGroups_keeps_am filters w). reflexivity.
  - rewrite (campaignAllocatorLeader_keeps_am fuel parentCtx a w). reflexivity.
  - rewrite (allocatorLeaderLoop_keeps_am fuel parentCtx a w). reflexivity.
Qed.

(** So at any time the registry of a new manager holds one entry per label
    set up so far. *)
Lemma runOps_registry_size (ops : list ManagerOp)
    (m : Member) (root : string) (si : Duration) (gap : DurationFn) (e : Ext) :
  size (allocatorGroups (am (runOps ops (newWorld m root si gap e)))) =
    length (remove_dups (setUpLabels ops)).
Proof.
  rewrite <- size_dom, runOps_registry_dom. simpl. rewrite dom_empty_L.
  rewrite (left_id_L ∅ (∪)). apply size_list_to_set_labels.
Qed.

End RegistryWrites.

(** ** The campaign helper *)

Section Campaign.
Context `{Collaborators}.

(** resetAllocatorGroup has no loop: it returns or panics. *)
Lemma resetAllocatorGroup_not_running (dcLocation : string) (w : World) :
  fst (resetAllocatorGroup dcLocation w) <> Running.
Proof.
  unfold resetAllocatorGroup. run. rewrite map_index_ok_lookup.
  destruct (allocatorGroups (am w) !! dcLocation) as [[g|]|]; simpl; discriminate.
Qed.

Lemma resetAllocatorGroup_trace (dcLocation : string) (w : World) :
  exists evs,
    trace (snd (resetAllocatorGroup dcLocation w)) = trace w ++ [EvLock] ++ evs ++ [EvUnlock].
Proof.
  unfold resetAllocatorGroup. run. rewrite map_index_ok_lookup.
  destruct (allocatorGroups (am w) !! dcLocation) as [[g|]|]; simpl.
  - eexists [_; _]. rewrite <- !app_assoc. reflexivity.
  - exists []. rewrite <- !app_assoc. reflexivity.
  - exists []. rewrite <- !app_assoc. reflexivity.
Qed.

(** A deferred call that cannot be left running is the last thing done
    whenever the function exits. *)
Lemma defer_exit {A} (d : M unit) (body : M A) (w : World) :
  (forall w', fst (d w') <> Running) ->
  fst (defer d body w) <> Running ->
  fst (body w) <> Running /\ snd (defer d body w) = snd (d (snd (body w))).
Proof.
  intros Hd. unfold defer. destruct (body w) as [r w2]. specialize (Hd w2).
  simpl snd. destruct (d w2) as [rd w3]. simpl in *.
  destruct r; simpl; try (intros Hr; exfalso; apply Hr; reflexivity);
    destruct rd; simpl; try (exfalso; apply Hd; reflexivity);
    intros _; (split; [discriminate | reflexivity]).
Qed.

(** A failed campaign: the helper returns at once, nothing is deferred. *)
Lemma campaignAllocatorLeader_campaign_failed (fuel : nat) (parentCtx : Ctx)
    (allocator : LocalTSOAllocator) (w : World) (err : error) :
  fst (handle _ (CampaignAllocatorLeader allocator defaultAllocatorLeaderLease) (ext w))
    = Some err ->
  fst (campaignAllocatorLeader fuel parentCtx allocator w) = Returned tt /\
  events (campaignAllocatorLeader fuel parentCtx allocator) w =
    [EvCall (CampaignAllocatorLeader allocator defaultAllocatorLeaderLease) (Some err)].
Proof.
  intros Hc. unfold campaignAllocatorLeader. split.
  - run. rewrite Hc. reflexivity.
  - apply events_of_trace. run. rewrite Hc. reflexivity.
Qed.

Lemma campaignAllocatorLeader_campaign_ok (fuel : nat) (parentCtx : Ctx)
    (allocator : LocalTSOAllocator) (w : World) :
  fst (handle _ (CampaignAllocatorLeader allocator defaultAllocatorLeaderLease) (ext w))
    = None ->
  campaignAllocatorLeader fuel parentCtx allocator w =
    defer (call (CallCancel (snd (childScope parentCtx allocator w))))
      (defer (resetAllocatorGroup (lta_dcLocation allocator))
         (campaignLeading fuel (fst (childScope parentCtx allocator w)) allocator))
      (afterCampaign parentCtx allocator w).
Proof.
  intros Hc. unfold campaignAllocatorLeader, afterCampaign, childScope.
  unfold bind at 1. unfold call at 1. simpl. rewrite Hc.
  unfold bind at 1. unfold call at 1. reflexivity.
Qed.

Lemma afterCampaign_trace (parentCtx : Ctx) (allocator : LocalTSOAllocator) (w : World) :
  fst (handle _ (CampaignAllocatorLeader allocator defaultAllocatorLeaderLease) (ext w))
    = None ->
  trace (afterCampaign parentCtx allocator w) =
    trace w ++
    [EvCall (CampaignAllocatorLeader allocator defaultAllocatorLeaderLease) None;
     EvCall (WithCancel parentCtx) (childScope parentCtx allocator w)] /\
  am (afterCampaign parentCtx allocator w) = am w.
Proof.
  intros Hc. unfold afterCampaign, childScope, call. simpl. rewrite Hc.
  rewrite <- app_assoc. split; reflexivity.
Qed.

Lemma campaignExit_trace (parentCtx : Ctx) (allocator : LocalTSOAllocator) (w w2 : World) :
  exists evs,
    trace (campaignExit parentCtx allocator w w2) =
      trace w2 ++ [EvLock] ++ evs
        ++ [EvUnlock; EvCall (CallCancel (snd (childScope parentCtx allocator w))) tt].
Proof.
  unfold campaignExit.
  generalize (snd (childScope parentCtx allocator w)). intros cancel.
  destruct (resetAllocatorGroup_trace (lta_dcLocation allocator) w2) as [evs Hreset].
  exists evs. unfold call. simpl. unit_answers.
  rewrite Hreset, <- !app_assoc. reflexivity.
Qed.

Lemma call_not_running {X} (c : extcall X) (w : World) : fst (call c w) <> Running.
Proof. unfold call. simpl. discriminate. Qed.

(** C6: once CampaignAllocatorLeader has succeeded, whenever the helper
    exits (returns or panics) the last things it has done, from the world in
    which its body ended, are resetAllocatorGroup on the allocator's label
    and then the cancel of the child context; when Initialize fails the helper
    returns, and for a label registered with group g its events end with the
    reset of g's allocator and of g's leadership under the exclusive lock,
    then the cancel. *)
Theorem campaignAllocatorLeader_exit (fuel : nat) (parentCtx : Ctx)
    (allocator : LocalTSOAllocator) (w : World) :
  fst (handle _ (CampaignAllocatorLeader allocator defaultAllocatorLeaderLease) (ext w))
    = None ->
  let w1 := afterCampaign parentCtx allocator w in
  let ctx := fst (childScope parentCtx allocator w) in
  let cancel := snd (childScope parentCtx allocator w) in
  let init := handle _ (Initialize (LocalAllocator allocator)) (ext w1) in
  (fst (campaignAllocatorLeader fuel parentCtx allocator w) <> Running ->
   let w2 := snd (campaignLeading fuel ctx allocator w1) in
   snd (campaignAllocatorLeader fuel parentCtx allocator w) =
     campaignExit parentCtx allocator w w2 /\
   exists evs,
     trace (campaignExit parentCtx allocator w w2) =
       trace w2 ++ [EvLock] ++ evs ++ [EvUnlock; EvCall (CallCancel cancel) tt]) /\
  (forall err g,
     fst init = Some err ->
     allocatorGroups (am w) !! lta_dcLocation allocator = Some (Some g) ->
     fst (campaignAllocatorLeader fuel parentCtx allocator w) = Returned tt /\
     events (campaignAllocatorLeader fuel parentCtx allocator) w =
       [EvCall (CampaignAllocatorLeader allocator defaultAllocatorLeaderLease) None;
        EvCall (WithCancel parentCtx) (ctx, cancel);
        EvGo (TaskKeepAllocatorLeader allocator ctx);
        EvCall (Initialize (LocalAllocator allocator)) (Some err);
        EvLock;
        EvCall (Reset (ag_allocator g)) tt;
        EvCall (LeadershipReset (ag_leadership g)) tt;
        EvUnlock;
        EvCall (CallCancel cancel) tt]).
Proof.
  intros Hc w1 ctx cancel init. split.
  - (* every exit *)
    intros Hexit. rewrite (campaignAllocatorLeader_campaign_ok _ _ _ _ Hc) in *.
    apply defer_exit in Hexit; [|intros w'; apply call_not_running].
    destruct Hexit as [Hexit Hlast].
    apply defer_exit in Hexit; [|apply resetAllocatorGroup_not_running].
    destruct Hexit as [_ Hreset].
    split; [|apply campaignExit_trace].
    rewrite Hlast, Hreset. reflexivity.
  - (* Initialize fails *)
    intros err g Hi Hg. subst init.
    destruct (afterCampaign_trace parentCtx allocator w Hc) as [Htr Ham].
    fold w1 in Htr, Ham.
    assert (Hg1 : allocatorGroups (am w1) !! lta_dcLocation allocator = Some (Some g))
      by (rewrite Ham; exact Hg).
    assert (Hrun : campaignAllocatorLeader fuel parentCtx allocator w =
              (Returned tt,
               mkWorld _ (am w1)
                 (snd (handle _ (CallCancel cancel)
                    (snd (handle _ (LeadershipReset (ag_leadership g))
                       (snd (handle _ (Reset (ag_allocator g))
                          (snd (handle _ (Initialize (LocalAllocator allocator))
                                  (ext w1)))))))))
                 (trace w1 ++
                  [EvGo (TaskKeepAllocatorLeader allocator ctx);
                   EvCall (Initialize (LocalAllocator allocator)) (Some err);
                   EvLock;
                   EvCall (Reset (ag_allocator g)) tt;
                   EvCall (LeadershipReset (ag_leadership g)) tt;
                   EvUnlock;
                   EvCall (CallCancel cancel) tt])
                 (next_ptr w1))).
    { rewrite (campaignAllocatorLeader_campaign_ok _ _ _ _ Hc).
      fold w1 ctx cancel. clear Htr Ham. clearbody w1 ctx cancel.
      unfold campaignLeading, resetAllocatorGroup. run.
      rewrite Hi. simpl. rewrite map_index_ok_lookup, Hg1. simpl.
      unit_answers. rewrite <- !app_assoc. reflexivity. }
    clearbody w1. split.
    + rewrite Hrun. reflexivity.
    + apply events_of_trace. rewrite Hrun. simpl. rewrite Htr, <- app_assoc.
      subst ctx cancel. destruct (childScope parentCtx allocator w). reflexivity.
Qed.

(** The leading loop ends when the lease is found lost at a tick. *)
Lemma leaderTickLoop_lease_lost (fuel : nat) (leaderTicker : Ticker) (ctx : Ctx)
    (allocator : LocalTSOAllocator) (w : World) :
  let sel := handle _ (SelectTickOrDone leaderTicker ctx) (ext w) in
  fst sel = CaseTick ->
  fst (handle _ (IsStillAllocatorLeader allocator) (snd sel)) = false ->
  fst (leaderTickLoop (S fuel) leaderTicker ctx allocator w) = Returned tt.
Proof.
  intros sel Hs Hl. subst sel. simpl. run. rewrite Hs. simpl. rewrite Hl. reflexivity.
Qed.

(** ... and when the child context is done. *)
Lemma leaderTickLoop_ctx_done (fuel : nat) (leaderTicker : Ticker) (ctx : Ctx)
    (allocator : LocalTSOAllocator) (w : World) :
  fst (handle _ (SelectTickOrDone leaderTicker ctx) (ext w)) = CaseDone ->
  fst (leaderTickLoop (S fuel) leaderTicker ctx allocator w) = Returned tt.
Proof. intros Hs. simpl. run. rewrite Hs. reflexivity. Qed.

End Campaign.

(** ** Enumeration *)

Section Enumeration.
Context `{Collaborators}.

Lemma existsb_indices {A} (l : list A) (q : A -> bool) :
  existsb (fun i => match l !! i with Some x => q x | None => false end)
    (seq 0 (length l)) = existsb q l.
Proof.
  apply Bool.eq_iff_eq_true. rewrite !existsb_exists. split.
  - intros (i & _ & Hq). destruct (l !! i) as [x|] eqn:Hx; [|discriminate].
    exists x. split; [|exact Hq]. apply list_elem_of_In.
    apply list_elem_of_lookup. eauto.
  - intros (x & Hin & Hq). apply list_elem_of_In, list_elem_of_lookup in Hin.
    destruct Hin as [i Hi]. exists i. split.
    + apply in_seq. apply lookup_lt_Some in Hi. lia.
    + rewrite Hi. exact Hq.
Qed.

Lemma slice_NoneOf_kept (filters : list AllocatorGroupFilter) (e : Ext) (g : allocatorGroup) :
  slice_NoneOf filters (apply_filter filters g e) = kept filters e g.
Proof.
  unfold slice_NoneOf, slice_AnyOf, kept.
  replace (existsb (apply_filter filters g e) (seq 0 (length filters)))
    with (existsb (fun f : AllocatorGroupFilter => f g e) filters)
    by (symmetry; apply (existsb_indices filters (fun f => f g e))).
  induction filters as [|f fs IH]; simpl; [reflexivity|].
  rewrite Bool.negb_orb, IH. reflexivity.
Qed.

Lemma kept_true (filters : list AllocatorGroupFilter) (e : Ext) (g : allocatorGroup) :
  kept filters e g = true <-> forall f, f ∈ filters -> f g e = false.
Proof.
  unfold kept. rewrite forallb_forall. split.
  - intros Hk f Hf. apply list_elem_of_In in Hf. apply Hk in Hf.
    apply Bool.negb_true_iff in Hf. exact Hf.
  - intros Hk f Hf. apply list_elem_of_In in Hf. rewrite (Hk f Hf). reflexivity.
Qed.

(** The range loop appends, in visiting order, the non-nil entries that no
    filter excludes. *)
Lemma collectAllocatorGroups_filter (filters : list AllocatorGroupFilter) (e : Ext)
    (entries : list (string * ptr allocatorGroup)) (acc : list (ptr allocatorGroup)) :
  collectAllocatorGroups filters e entries acc =
    acc ++ List.filter (kept_ptr filters e) (snd <$> entries).
Proof.
  revert acc. induction entries as [|[dc [g|]] entries IH]; intros acc; simpl.
  - rewrite app_nil_r. reflexivity.
  - rewrite slice_NoneOf_kept. destruct (kept filters e g).
    + rewrite IH, <- app_assoc. reflexivity.
    + apply IH.
  - apply IH.
Qed.

Lemma getAllocatorGroups_run (filters : list AllocatorGroupFilter) (w : World) :
  getAllocatorGroups filters w =
    (Returned (List.filter (kept_ptr filters (ext w))
                 (snd <$> range_order (allocatorGroups (am w)))),
     mkWorld _ (am w) (ext w) (trace w ++ [EvRLock; EvRUnlock]) (next_ptr w)).
Proof.
  unfold getAllocatorGroups. run. rewrite collectAllocatorGroups_filter.
  rewrite <- !app_assoc. reflexivity.
Qed.

Lemma elem_of_List_filter {A} (f : A -> bool) (l : list A) (x : A) :
  x ∈ List.filter f l <-> x ∈ l /\ f x = true.
Proof. rewrite !list_elem_of_In. apply filter_In. Qed.

Lemma elem_of_range_values (m : gmap string (ptr allocatorGroup)) (p : ptr allocatorGroup) :
  p ∈ (snd <$> range_order m) <-> exists dc, m !! dc = Some p.
Proof.
  rewrite range_order_perm, list_elem_of_fmap. split.
  - intros ([dc p'] & -> & Hin). exists dc. apply elem_of_map_to_list. exact Hin.
  - intros [dc Hdc]. exists (dc, p). split; [reflexivity|].
    apply elem_of_map_to_list. exact Hdc.
Qed.

(** C7: getAllocatorGroups returns, for every list of filters and every
    registry, exactly the registered groups on which no filter returns true:
    a pointer is in the result if and only if it is a group stored under
    some label and every filter is false on it, and each entry of the
    registry contributes at most its own pointer. *)
Theorem getAllocatorGroups_exact (filters : list AllocatorGroupFilter) (w : World) :
  exists ags,
    fst (getAllocatorGroups filters w) = Returned ags /\
    ext (snd (getAllocatorGroups filters w)) = ext w /\
    ags ≡ₚ List.filter (kept_ptr filters (ext w))
             (snd <$> map_to_list (allocatorGroups (am w))) /\
    forall p,
      p ∈ ags <->
      exists g, p = Some g /\
        (exists dc, allocatorGroups (am w) !! dc = Some (Some g)) /\
        (forall f, f ∈ filters -> f g (ext w) = false).
Proof.
  rewrite getAllocatorGroups_run. eexists. split; [reflexivity|]. split; [reflexivity|].
  split.
  - assert (Hperm : forall (f : ptr allocatorGroup -> bool) l1 l2,
               l1 ≡ₚ l2 -> List.filter f l1 ≡ₚ List.filter f l2).
    { intros f l1 l2 Hl. induction Hl; simpl.
      - reflexivity.
      - destruct (f x); [constructor|]; assumption.
      - destruct (f x), (f y); try reflexivity. apply perm_swap.
      - etransitivity; eassumption. }
    apply Hperm. rewrite range_order_perm. reflexivity.
  - intros p. rewrite elem_of_List_filter, elem_of_range_values. split.
    + intros [[dc Hdc] Hk]. destruct p as [g|]; [|discriminate].
      exists g. split; [reflexivity|]. split; [eauto|].
      apply kept_true. exact Hk.
    + intros (g & -> & [dc Hdc] & Hf). split; [eauto|].
      apply kept_true. exact Hf.
Qed.

Lemma appendAllocators_groups (gs : list allocatorGroup) (allocators : list Allocator)
    (w : World) :
  appendAllocators (Some <$> gs) allocators w =
    (Returned (allocators ++ (ag_allocator <$> gs)), w).
Proof.
  revert allocators. induction gs as [|g gs IH]; intros allocators; simpl.
  - rewrite app_nil_r. reflexivity.
  - run. rewrite IH, <- app_assoc. reflexivity.
Qed.

Lemma no_nil_groups (ags : list (ptr allocatorGroup)) :
  None ∉ ags -> exists gs, ags = Some <$> gs.
Proof.
  induction ags as [|[g|] ags IH]; intros Hn.
  - exists []. reflexivity.
  - destruct IH as [gs ->]; [set_solver|]. exists (g :: gs). reflexivity.
  - exfalso. apply Hn. left.
Qed.

(** C10: whatever the registry holds, nil values included, the list returned
    by getAllocatorGroups has no nil pointer in it, and GetAllocators, which
    reads the allocator of every returned group, returns (it does not
    dereference nil): its result is the allocators of those groups. *)
Theorem enumeration_skips_nil (filters : list AllocatorGroupFilter) (w : World) :
  exists gs,
    fst (getAllocatorGroups filters w) = Returned (Some <$> gs) /\
    ~ In None (Some <$> gs) /\
    fst (GetAllocators filters w) = Returned (ag_allocator <$> gs).
Proof.
  assert (Hn : None ∉ List.filter (kept_ptr filters (ext w))
                 (snd <$> range_order (allocatorGroups (am w)))).
  { rewrite elem_of_List_filter. intros [_ Hk]. discriminate. }
  destruct (no_nil_groups _ Hn) as [gs Hgs]. exists gs.
  split; [|split].
  - rewrite getAllocatorGroups_run, Hgs. reflexivity.
  - rewrite <- Hgs, <- list_elem_of_In. exact Hn.
  - unfold GetAllocators, bind. rewrite getAllocatorGroups_run, Hgs.
    rewrite appendAllocators_groups. reflexivity.
Qed.

End Enumeration.

(** ** Go paths *)

Section GoPathFacts.
Import GoPath.
#[local] Arguments is_slash : simpl never.
#[local] Arguments is_dot : simpl never.

Lemma is_dot_eq c : is_dot c = true -> c = dot.
Proof. unfold is_dot. intros Hc. apply Ascii.eqb_eq in Hc. exact Hc. Qed.

Lemma copy_element_plain (e tail out : list ascii) :
  forallb (fun c => negb (is_slash c)) e = true ->
  ends_element tail = true ->
  copy_element (e ++ tail) out = (out ++ e, tail).
Proof.
  revert out. induction e as [|c e IH]; intros out He Ht; simpl.
  - rewrite app_nil_r. destruct tail as [|t tail]; [reflexivity|].
    simpl in *. rewrite Ht. reflexivity.
  - simpl in He. apply andb_prop in He. destruct He as [Hc He].
    apply Bool.negb_true_iff in Hc. rewrite Hc.
    rewrite IH by assumption. rewrite <- app_assoc. reflexivity.
Qed.

Lemma clean_loop_element (fuel : nat) (rooted : bool) (e tail out : list ascii) (dotdot : nat) :
  is_plain_element e = true ->
  ends_element tail = true ->
  clean_loop (S fuel) rooted (e ++ tail) out dotdot =
    clean_loop fuel rooted tail (out ++ separator rooted out ++ e) dotdot.
Proof.
  intros He Ht. destruct e as [|c cs]; [discriminate|].
  unfold is_plain_element in He.
  apply andb_prop in He. destruct He as [He Hdd].
  apply andb_prop in He. destruct He as [Hns Hd].
  apply Bool.negb_true_iff, bool_decide_eq_false in Hd, Hdd.
  assert (Hno : forall x, In x (c :: cs) -> is_slash x = false).
  { intros x Hx. rewrite forallb_forall in Hns. apply Bool.negb_true_iff, Hns, Hx. }
  assert (Hc : is_slash c = false) by (apply Hno; left; reflexivity).
  assert (H1 : is_dot c && ends_element (cs ++ tail) = false).
  { destruct (is_dot c) eqn:Hdot; [|reflexivity]. apply is_dot_eq in Hdot. subst c.
    destruct cs as [|c2 cs]; [congruence|].
    apply (Hno c2). right. left. reflexivity. }
  assert (H2 : is_dot c && is_dot (hd slash (cs ++ tail)) && ends_element (tl (cs ++ tail))
               = false).
  { destruct (is_dot c) eqn:Hdot; [|reflexivity]. apply is_dot_eq in Hdot. subst c.
    destruct cs as [|c2 cs]; [congruence|]. simpl hd. simpl tl.
    destruct (is_dot c2) eqn:Hdot2; [|reflexivity]. apply is_dot_eq in Hdot2. subst c2.
    destruct cs as [|c3 cs]; [congruence|].
    apply (Hno c3). right. right. left. reflexivity. }
  change ((c :: cs) ++ tail) with (c :: (cs ++ tail)).
  cbn [clean_loop]. rewrite Hc, H1, H2.
  change (c :: (cs ++ tail)) with ((c :: cs) ++ tail).
  rewrite (copy_element_plain (c :: cs) tail _ Hns Ht).
  unfold separator.
  destruct ((rooted && negb (length out =? 1)%nat) || (negb rooted && negb (length out =? 0)%nat));
    rewrite <- ?app_assoc; reflexivity.
Qed.

Lemma separator_after (rooted : bool) (out e : list ascii) :
  e <> [] -> (rooted = true -> out <> []) ->
  separator rooted (out ++ separator rooted out ++ e) = [slash].
Proof.
  intros He Hout. unfold separator at 1.
  assert (Hlen : (0 < length e)%nat) by (destruct e; [congruence | simpl; lia]).
  rewrite !length_app. destruct rooted; simpl.
  - assert ((0 < length out)%nat).
    { destruct out; [exfalso; apply Hout; reflexivity | simpl; lia]. }
    destruct (Nat.eqb_spec (length out + (length (separator true out) + length e)) 1);
      [lia | reflexivity].
  - destruct (Nat.eqb_spec (length out + (length (separator false out) + length e)) 0);
      [lia | reflexivity].
Qed.

Lemma clean_loop_elements (es : list (list ascii)) :
  forall (fuel : nat) (rooted : bool) (e out : list ascii) (dotdot : nat),
    is_plain_element e = true ->
    Forall (fun e' => is_plain_element e' = true) es ->
    (rooted = true -> out <> []) ->
    (length (e ++ absolute es) <= fuel)%nat ->
    clean_loop fuel rooted (e ++ absolute es) out dotdot =
      out ++ separator rooted out ++ e ++ absolute es.
Proof.
  induction es as [|e2 es IH]; intros fuel rooted e out dotdot He Hes Hout Hfuel.
  - unfold absolute in *. simpl in *. rewrite app_nil_r in *.
    destruct fuel as [|fuel]; [destruct e; [discriminate | simpl in Hfuel; lia]|].
    rewrite <- (app_nil_r e) at 1.
    rewrite clean_loop_element by (assumption || reflexivity).
    destruct fuel; reflexivity.
  - inversion Hes as [|? ? He2 Hes']; subst.
    assert (He0 : e <> []) by (destruct e; [discriminate | congruence]).
    assert (Hlen : (0 < length e)%nat) by (destruct e; [congruence | simpl; lia]).
    assert (He20 : (0 < length e2)%nat) by (destruct e2; [discriminate | simpl; lia]).
    change (absolute (e2 :: es)) with (slash :: (e2 ++ absolute es)) in *.
    rewrite length_app in Hfuel. simpl in Hfuel. rewrite length_app in Hfuel.
    destruct fuel as [|[|fuel]]; [lia | lia |].
    rewrite clean_loop_element by (assumption || reflexivity).
    cbn [clean_loop]. change (is_slash slash) with true. cbn iota.
    rewrite IH; try assumption.
    + rewrite separator_after by assumption. rewrite <- !app_assoc. reflexivity.
    + intros _. destruct out; [destruct (separator rooted []); destruct e; simpl; congruence | discriminate].
    + rewrite length_app. lia.
Qed.

Lemma clean_bytes_absolute (es : list (list ascii)) :
  es <> [] ->
  Forall (fun e => is_plain_element e = true) es ->
  clean_bytes (absolute es) = absolute es.
Proof.
  intros Hne Hes. destruct es as [|e es]; [congruence|].
  inversion Hes as [|? ? He Hes']; subst.
  change (absolute (e :: es)) with (slash :: (e ++ absolute es)).
  unfold clean_bytes. change (is_slash slash) with true. cbn iota.
  rewrite clean_loop_elements; try assumption.
  - reflexivity.
  - intros _. discriminate.
  - simpl. lia.
Qed.

Lemma string_of_list_ascii_app (a b : list ascii) :
  string_of_list_ascii (a ++ b) = string_of_list_ascii a +:+ string_of_list_ascii b.
Proof. induction a as [|c a IH]; simpl; [reflexivity | rewrite IH; reflexivity]. Qed.

Lemma length_list_ascii_of_string (s : string) :
  length (list_ascii_of_string s) = String.length s.
Proof. induction s as [|c s IH]; simpl; [reflexivity | rewrite IH; reflexivity]. Qed.

Lemma absolute_app (es : list (list ascii)) (l : list ascii) :
  absolute (es ++ [l]) = absolute es ++ slash :: l.
Proof.
  unfold absolute. rewrite map_app, concat_app. simpl. rewrite app_nil_r. reflexivity.
Qed.

Lemma Join_clean_absolute (root label : string) :
  clean_absolute root -> plain_label label = true ->
  Join [root; label] = root +:+ "/" +:+ label.
Proof.
  intros (es & Hne & Hes & Hroot) Hl. unfold plain_label in Hl. unfold Join.
  assert (Hlen : (0 < String.length label)%nat).
  { rewrite <- length_list_ascii_of_string.
    destruct (list_ascii_of_string label); [discriminate | simpl; lia]. }
  destruct (Nat.eqb_spec (sum_list (String.length <$> [root; label])) 0) as [Hz|_].
  { simpl in Hz. lia. }
  assert (Hbuf : join_buf [root; label] [] = absolute (es ++ [list_ascii_of_string label])).
  { rewrite absolute_app. simpl. rewrite Hroot.
    destruct es as [|e es]; [congruence|]. reflexivity. }
  rewrite Hbuf, clean_bytes_absolute.
  - rewrite absolute_app, string_of_list_ascii_app, <- Hroot. simpl.
    rewrite !string_of_list_ascii_of_string. reflexivity.
  - destruct es; discriminate.
  - apply Forall_app. split; [exact Hes|]. constructor; [exact Hl | constructor].
Qed.

Lemma length_append (s1 s2 : string) :
  String.length (s1 +:+ s2) = (String.length s1 + String.length s2)%nat.
Proof. induction s1 as [|c s1 IH]; simpl; [reflexivity | rewrite IH; reflexivity]. Qed.

Lemma append_not_self (root rest : string) :
  (0 < String.length rest)%nat -> root +:+ rest <> root.
Proof.
  intros Hlen Heq. apply (f_equal String.length) in Heq.
  rewrite length_append in Heq. lia.
Qed.

End GoPathFacts.

(** ** The persistence path *)

Section AllocatorPath.
Context `{Collaborators}.


End AllocatorPath.

(** * Further properties *)

(** ** Relations kept by every run *)

Section Preserved.
Context `{Collaborators}.
Variable R : World -> World -> Prop.
Hypothesis R_refl : forall w, R w w.
Hypothesis R_trans : forall w1 w2 w3, R w1 w2 -> R w2 w3 -> R w1 w3.

Lemma preserves_ret {A} (a : A) : preserves R (ret a).
Proof. intros w. apply R_refl. Qed.

Lemma preserves_panic {A} (msg : string) : preserves R (panic (A := A) msg).
Proof. intros w. apply R_refl. Qed.

Lemma preserves_running {A} : preserves R (running (A := A)).
Proof. intros w. apply R_refl. Qed.

Lemma preserves_get_am : preserves R get_am.
Proof. intros w. apply R_refl. Qed.

Lemma preserves_get_ext : preserves R get_ext.
Proof. intros w. apply R_refl. Qed.

Lemma preserves_deref {A} (p : ptr A) : preserves R (deref p).
Proof. destruct p; intros w; apply R_refl. Qed.

Lemma preserves_bind {A B} (m : M A) (k : A -> M B) :
  preserves R m -> (forall a, preserves R (k a)) -> preserves R (bind m k).
Proof.
  intros Hm Hk w. unfold bind. specialize (Hm w).
  destruct (m w) as [[a| |] w']; simpl in *; [|assumption..].
  eapply R_trans; [exact Hm | apply Hk].
Qed.

Lemma preserves_defer {A} (d : M unit) (body : M A) :
  preserves R d -> preserves R body -> preserves R (defer d body).
Proof.
  intros Hd Hb w. unfold defer. specialize (Hb w).
  destruct (body w) as [r w']; simpl in *. specialize (Hd w').
  destruct r; [| |assumption];
    destruct (d w') as [[] w'']; simpl in *; eapply R_trans; eassumption.
Qed.

End Preserved.

(** Walks a computation built from [bind], [defer] and the primitives,
    leaving the steps that change the world. *)
Ltac walk R Hrefl Htrans :=
  repeat first
    [ apply (preserves_ret R Hrefl) | apply (preserves_panic R Hrefl)
    | apply (preserves_running R Hrefl) | apply (preserves_get_am R Hrefl)
    | apply (preserves_get_ext R Hrefl) | apply (preserves_deref R Hrefl)
    | apply (preserves_defer R Htrans) | apply (preserves_bind R Htrans)
    | match goal with
      | |- forall _, preserves _ _ => intro
      | |- preserves _ (match ?x with _ => _ end) => destruct x
      end ].

Section Steps.
Context `{Collaborators}.

Lemma adds_refl (P : Event -> bool) (w : World) : adds P w w.
Proof. exists []. rewrite app_nil_r. split; reflexivity. Qed.

Lemma adds_trans (P : Event -> bool) (w1 w2 w3 : World) :
  adds P w1 w2 -> adds P w2 w3 -> adds P w1 w3.
Proof.
  intros (e1 & H1 & P1) (e2 & H2 & P2). exists (e1 ++ e2).
  rewrite H2, H1, <- app_assoc, forallb_app, P1, P2. split; reflexivity.
Qed.

Lemma adds_emit (P : Event -> bool) (e : Event) :
  P e = true -> preserves (adds P) (emit e).
Proof. intros HP w. exists [e]. simpl. rewrite HP. split; reflexivity. Qed.

Lemma adds_call (P : Event -> bool) {X} (c : extcall X) :
  (forall x, P (EvCall c x) = true) -> preserves (adds P) (call c).
Proof. intros HP w. eexists [_]. simpl. rewrite HP. split; reflexivity. Qed.

Lemma same_heap_refl (w : World) : same_heap w w.
Proof. split; reflexivity. Qed.

Lemma same_heap_trans (w1 w2 w3 : World) :
  same_heap w1 w2 -> same_heap w2 w3 -> same_heap w1 w3.
Proof. intros [A1 N1] [A2 N2]. split; congruence. Qed.

Lemma same_heap_emit (e : Event) : preserves same_heap (emit e).
Proof. intros w. split; reflexivity. Qed.

Lemma same_heap_call {X} (c : extcall X) : preserves same_heap (call c).
Proof. intros w. split; reflexivity. Qed.

(** *** Computations without a loop *)

Lemma ends_ret {A} (a : A) : ends (ret a).
Proof. intros w. discriminate. Qed.

Lemma ends_panic {A} (msg : string) : ends (panic (A := A) msg).
Proof. intros w. discriminate. Qed.

Lemma ends_emit (e : Event) : ends (emit e).
Proof. intros w. discriminate. Qed.

Lemma ends_call {X} (c : extcall X) : ends (call c).
Proof. intros w. discriminate. Qed.

Lemma ends_get_am : ends get_am.
Proof. intros w. discriminate. Qed.

Lemma ends_get_ext : ends get_ext.
Proof. intros w. discriminate. Qed.

Lemma ends_set_allocatorGroups (m : gmap string (ptr allocatorGroup)) :
  ends (set_allocatorGroups m).
Proof. intros w. discriminate. Qed.

Lemma ends_fresh_ptr : ends fresh_ptr.
Proof. intros w. discriminate. Qed.

Lemma ends_deref {A} (p : ptr A) : ends (deref p).
Proof. destruct p; intros w; discriminate. Qed.

Lemma ends_bind {A B} (m : M A) (k : A -> M B) :
  ends m -> (forall a, ends (k a)) -> ends (bind m k).
Proof.
  intros Hm Hk w. unfold bind. specialize (Hm w).
  destruct (m w) as [[a| |] w']; simpl in *;
    [apply Hk | discriminate | exfalso; apply Hm; reflexivity].
Qed.

Lemma ends_defer {A} (d : M unit) (body : M A) :
  ends d -> ends body -> ends (defer d body).
Proof.
  intros Hd Hb w. unfold defer. specialize (Hb w).
  destruct (body w) as [r w']; simpl in *. specialize (Hd w').
  destruct r; [| |exfalso; apply Hb; reflexivity];
    destruct (d w') as [[] w'']; simpl in *;
    first [discriminate | exfalso; apply Hd; reflexivity].
Qed.

End Steps.

Ltac ends_walk :=
  repeat first
    [ apply ends_ret | apply ends_panic | apply ends_emit | apply ends_call
    | apply ends_get_am | apply ends_get_ext | apply ends_set_allocatorGroups
    | apply ends_fresh_ptr | apply ends_deref | apply ends_defer | apply ends_bind
    | match goal with
      | |- forall _, ends _ => intro
      | |- ends (match ?x with _ => _ end) => destruct x
      end ].

(** Walks a computation for [adds P]: the calls and emits are checked by
    computing [P]. *)
Ltac adds_walk :=
  match goal with
  | |- preserves (adds ?P) _ => walk (adds P) (adds_refl P) (adds_trans P)
  end;
  try first [ apply adds_emit; reflexivity | apply adds_call; intro; reflexivity ].

Ltac heap_walk :=
  match goal with
  | |- preserves ?R _ =>
      let Hr := constr:(same_heap_refl) in
      let Ht := constr:(same_heap_trans) in
      walk R Hr Ht
  end;
  try first [ apply same_heap_emit | apply same_heap_call ].

(** ** The update worker and the wait group *)

Section UpdateWorker.
Context `{Collaborators}.

(** A deferred emit: the event is added when the body has ended. *)
Lemma defer_emit {A} (e : Event) (body : M A) (w : World) :
  fst (body w) <> Running ->
  defer (emit e) body w =
    (fst (body w),
     mkWorld _ (am (snd (body w))) (ext (snd (body w))) (trace (snd (body w)) ++ [e])
       (next_ptr (snd (body w)))).
Proof.
  intros Hb. unfold defer, emit. destruct (body w) as [r w']. simpl in *.
  destruct r; [reflexivity | reflexivity | exfalso; apply Hb; reflexivity].
Qed.

(** X1: whatever group pointer it is given, nil included, and whatever the
    collaborators answer, the update worker ends (it returns, or panics on
    nil), its last event is wg.Done and that is its only wg.Done; it takes no
    lock and leaves the registry as it is. *)
Theorem updateAllocator_done_exactly_once (ag : ptr allocatorGroup) (w : World) :
  fst (updateAllocator ag w) <> Running /\
  (exists evs,
     events (updateAllocator ag) w = evs ++ [EvWgDone] /\
     existsb is_WgDone evs = false /\
     existsb is_lock_event evs = false) /\
  am (snd (updateAllocator ag w)) = am w /\
  (ag = None -> exists msg, fst (updateAllocator ag w) = Panicked msg).
Proof.
  unfold updateAllocator.
  match goal with
  | |- context [defer (emit EvWgDone) ?b] => set (body := b)
  end.
  assert (Hends : ends body) by (subst body; ends_walk).
  assert (Hadds : preserves (adds (fun e => negb (is_WgDone e) && negb (is_lock_event e)))
                    body) by (subst body; adds_walk).
  assert (Hheap : preserves same_heap body) by (subst body; heap_walk).
  assert (Hnil : ag = None -> exists msg, fst (body w) = Panicked msg).
  { intros ->. eexists. reflexivity. }
  clearbody body. specialize (Hends w).
  destruct (Hadds w) as (evs & Htr & HP). destruct (Hheap w) as [Ham _].
  rewrite (defer_emit _ _ _ Hends). simpl.
  split; [exact Hends|]. split; [|split; [exact Ham | exact Hnil]].
  exists evs. split.
  - apply events_of_trace. rewrite (defer_emit _ _ _ Hends).
    simpl. rewrite Htr, <- app_assoc. reflexivity.
  - clear Htr. induction evs as [|e evs IH]; [split; reflexivity|].
    simpl in *. apply andb_prop in HP. destruct HP as [He HP].
    apply andb_prop in He. destruct He as [H1 H2].
    apply Bool.negb_true_iff in H1, H2. rewrite H1, H2. simpl. apply IH, HP.
Qed.

(** X2: when the parent context is alive and the leadership check fails, the
    worker sleeps 200ms and returns: it calls neither UpdateTSO nor
    parentCancel nor Reset. *)
Theorem updateAllocator_without_leadership (g : allocatorGroup) (w : World) :
  fst (handle _ (CtxDone (ag_parentCtx g)) (ext w)) = false ->
  fst (handle _ (LeadershipCheck (ag_leadership g))
         (snd (handle _ (CtxDone (ag_parentCtx g)) (ext w)))) = false ->
  fst (updateAllocator (Some g) w) = Returned tt /\
  events (updateAllocator (Some g)) w =
    [EvCall (CtxDone (ag_parentCtx g)) false;
     EvCall (LeadershipCheck (ag_leadership g)) false;
     EvCall (Sleep (200 * Millisecond)%Z) tt;
     EvWgDone] /\
  existsb is_UpdateTSO (events (updateAllocator (Some g)) w) = false /\
  existsb is_teardown (events (updateAllocator (Some g)) w) = false.
Proof.
  intros Hd Hc.
  destruct (updateAllocator_not_leader g w Hd Hc) as [Hres Hev].
  rewrite Hev. repeat split. exact Hres.
Qed.

End UpdateWorker.

(** ** Looking a group up *)

Section Lookup.
Context `{Collaborators}.

Lemma GetAllocator_run (dcLocation : string) (w : World) :
  GetAllocator dcLocation w =
    (match allocatorGroups (am w) !! dcLocation with
     | None => Returned (None, Some (ErrGetAllocator (dcLocation +:+ " allocator not found")))
     | Some (Some g) => Returned (Some (ag_allocator g), None)
     | Some None => Panicked "invalid memory address or nil pointer dereference"
     end,
     mkWorld _ (am w) (ext w) (trace w ++ [EvRLock; EvRUnlock]) (next_ptr w)).
Proof.
  unfold GetAllocator. run. rewrite map_index_ok_lookup.
  destruct (allocatorGroups (am w) !! dcLocation) as [[g|]|]; simpl;
    rewrite <- !app_assoc; reflexivity.
Qed.

(** X3: GetAllocator answers from the registry alone, under the shared lock
    and without calling a collaborator: a missing label gives a nil allocator
    and ErrGetAllocator naming the label, a registered group gives its
    allocator and a nil error, a nil entry makes it panic after which the
    lock is still released.  It agrees with HandleTSORequest: on the same
    world the request is answered by GenerateTSO of the allocator GetAllocator
    returns, and is refused exactly when GetAllocator is. *)
Theorem GetAllocator_result (dcLocation : string) (count : Z) (w : World) :
  events (GetAllocator dcLocation) w = [EvRLock; EvRUnlock] /\
  ext (snd (GetAllocator dcLocation w)) = ext w /\
  am (snd (GetAllocator dcLocation w)) = am w /\
  match allocatorGroups (am w) !! dcLocation with
  | None =>
      fst (GetAllocator dcLocation w) =
        Returned (None, Some (ErrGetAllocator (dcLocation +:+ " allocator not found"))) /\
      fst (HandleTSORequest dcLocation count w) =
        Returned (zeroTimestamp, Some (notFound dcLocation))
  | Some (Some g) =>
      fst (GetAllocator dcLocation w) = Returned (Some (ag_allocator g), None) /\
      fst (HandleTSORequest dcLocation count w) =
        Returned (fst (handle _ (GenerateTSO (ag_allocator g) count) (ext w)))
  | Some None =>
      (exists msg, fst (GetAllocator dcLocation w) = Panicked msg) /\
      (exists msg, fst (HandleTSORequest dcLocation count w) = Panicked msg)
  end.
Proof.
  split; [|split; [|split]].
  - apply events_of_trace. rewrite GetAllocator_run. reflexivity.
  - rewrite GetAllocator_run. reflexivity.
  - rewrite GetAllocator_run. reflexivity.
  - rewrite GetAllocator_run.
    destruct (allocatorGroups (am w) !! dcLocation) as [[g|]|] eqn:Hg; simpl.
    + split; [reflexivity|]. apply (HandleTSORequest_present dcLocation count g w Hg).
    + split; [eauto|]. apply (HandleTSORequest_nil dcLocation count w Hg).
    + split; [reflexivity|]. apply (HandleTSORequest_absent dcLocation count w Hg).
Qed.

Lemma SetUpAllocator_ext_trace (parentCtx : Ctx) (parentCancel : CancelFunc)
    (dcLocation : string) (leadership : Leadership) (w : World) :
  next_ptr (snd (SetUpAllocator parentCtx parentCancel dcLocation leadership w))
    = S (next_ptr w) /\
  rootPath (am (snd (SetUpAllocator parentCtx parentCancel dcLocation leadership w)))
    = rootPath (am w) /\
  member (am (snd (SetUpAllocator parentCtx parentCancel dcLocation leadership w)))
    = member (am w).
Proof.
  destruct (decide (dcLocation = GlobalDCLocation)) as [Hdc|Hdc].
  - rewrite (SetUpAllocator_global _ _ _ _ _ Hdc). repeat split.
  - rewrite (SetUpAllocator_local _ _ _ _ _ Hdc). repeat split.
Qed.

(** X4: what SetUpAllocator stores can be looked up at once, whether or not
    the initialization of a GLOBAL allocator failed: GetAllocator on the label
    returns the allocator just built, HandleTSORequest on it is answered by
    that allocator's GenerateTSO, never by the not-found error; and the
    lookup of every other label is as it was before the call. *)
Theorem SetUpAllocator_then_lookup (parentCtx : Ctx) (parentCancel : CancelFunc)
    (dcLocation : string) (leadership : Leadership) (w : World) :
  let w' := snd (SetUpAllocator parentCtx parentCancel dcLocation leadership w) in
  let a := setUpAllocatorOf w dcLocation leadership in
  fst (GetAllocator dcLocation w') = Returned (Some a, None) /\
  (forall count,
     fst (HandleTSORequest dcLocation count w') =
       Returned (fst (handle _ (GenerateTSO a count) (ext w')))) /\
  (forall dc, dc <> dcLocation ->
     allocatorGroups (am w') !! dc = allocatorGroups (am w) !! dc /\
     fst (GetAllocator dc w') = fst (GetAllocator dc w)).
Proof.
  intros w' a.
  assert (Hreg : allocatorGroups (am w') !! dcLocation =
                 Some (Some (setUpGroupOf w parentCtx parentCancel dcLocation leadership))).
  { subst w'. rewrite SetUpAllocator_registry. apply lookup_insert_eq. }
  split; [|split].
  - rewrite GetAllocator_run, Hreg. reflexivity.
  - intros count.
    apply (HandleTSORequest_present dcLocation count _ w' Hreg).
  - intros dc Hne.
    assert (Hother : allocatorGroups (am w') !! dc = allocatorGroups (am w) !! dc).
    { subst w'. rewrite SetUpAllocator_registry. apply lookup_insert_ne. congruence. }
    split; [exact Hother|]. rewrite !GetAllocator_run, Hother. reflexivity.
Qed.

End Lookup.

(** ** What the operations leave alone *)

Section Heap.
Context `{Collaborators}.

Lemma resetAllocatorGroup_heap (dcLocation : string) :
  preserves same_heap (resetAllocatorGroup dcLocation).
Proof. unfold resetAllocatorGroup. heap_walk. Qed.

Lemma updateAllocator_heap (ag : ptr allocatorGroup) : preserves same_heap (updateAllocator ag).
Proof. unfold updateAllocator. heap_walk. Qed.

Lemma HandleTSORequest_heap (dcLocation : string) (count : Z) :
  preserves same_heap (HandleTSORequest dcLocation count).
Proof. unfold HandleTSORequest. heap_walk. Qed.

Lemma getAllocatorGroups_heap (filters : list AllocatorGroupFilter) :
  preserves same_heap (getAllocatorGroups filters).
Proof. unfold getAllocatorGroups. heap_walk. Qed.

Lemma leaderTickLoop_heap (fuel : nat) (t : Ticker) (ctx : Ctx) (a : LocalTSOAllocator) :
  preserves same_heap (leaderTickLoop fuel t ctx a).
Proof. induction fuel as [|fuel IH]; simpl; heap_walk. exact IH. Qed.

Lemma campaignAllocatorLeader_heap (fuel : nat) (parentCtx : Ctx) (a : LocalTSOAllocator) :
  preserves same_heap (campaignAllocatorLeader fuel parentCtx a).
Proof.
  unfold campaignAllocatorLeader, campaignLeading, go. heap_walk;
    first [apply resetAllocatorGroup_heap | apply leaderTickLoop_heap].
Qed.

Lemma allocatorLeaderLoop_heap (fuel : nat) (parentCtx : Ctx) (a : ptr LocalTSOAllocator) :
  preserves same_heap (allocatorLeaderLoop fuel parentCtx a).
Proof.
  induction fuel as [|fuel IH]; simpl; heap_walk;
    first [exact IH | apply campaignAllocatorLeader_heap | apply leaderTickLoop_heap].
Qed.

Lemma runOp_heap (op : ManagerOp) (w : World) :
  match op with
  | OpSetUp c =>
      allocatorGroups (am (runOp op w)) =
        <[sa_dcLocation c :=
            Some (setUpGroupOf w (sa_parentCtx c) (sa_parentCancel c) (sa_dcLocation c)
                    (sa_leadership c))]> (allocatorGroups (am w)) /\
      next_ptr (runOp op w) = S (next_ptr w) /\
      rootPath (am (runOp op w)) = rootPath (am w) /\
      member (am (runOp op w)) = member (am w)
  | _ => same_heap w (runOp op w)
  end.
Proof.
  destruct op; cbn [runOp].
  - split; [apply SetUpAllocator_registry | apply SetUpAllocator_ext_trace].
  - apply resetAllocatorGroup_heap.
  - apply updateAllocator_heap.
  - apply HandleTSORequest_heap.
  - apply getAllocatorGroups_heap.
  - apply campaignAllocatorLeader_heap.
  - apply allocatorLeaderLoop_heap.
Qed.

Lemma runOps_cons (op : ManagerOp) (ops : list ManagerOp) (w : World) :
  runOps (op :: ops) w = runOps ops (runOp op w).
Proof. reflexivity. Qed.

Lemma setUpLabels_cons (op : ManagerOp) (ops : list ManagerOp) :
  setUpLabels (op :: ops) =
    match op with
    | OpSetUp c => sa_dcLocation c :: setUpLabels ops
    | _ => setUpLabels ops
    end.
Proof. destruct op; reflexivity. Qed.

Lemma runOps_frame (ops : list ManagerOp) (w : World) :
  let w' := runOps ops w in
  dom (allocatorGroups (am w')) =
    dom (allocatorGroups (am w)) ∪ list_to_set (setUpLabels ops) /\
  (forall dc, dc ∉ setUpLabels ops ->
     allocatorGroups (am w') !! dc = allocatorGroups (am w) !! dc) /\
  rootPath (am w') = rootPath (am w) /\
  member (am w') = member (am w) /\
  (registry_wf (allocatorGroups (am w)) -> registry_wf (allocatorGroups (am w'))).
Proof.
  cbv zeta. split; [apply runOps_registry_dom|].
  revert w. induction ops as [|op ops IH]; intros w.
  - repeat split; auto.
  - rewrite runOps_cons, setUpLabels_cons.
    destruct (IH (runOp op w)) as (Hframe & Hroot & Hmem & Hwf).
    pose proof (runOp_heap op w) as Hop.
    destruct op;
      try (destruct Hop as [Ham _]; rewrite Ham in *; repeat split; assumption).
    destruct Hop as (Hreg & _ & Hr & Hm). split; [|split; [|split]].
    + intros dc Hdc. rewrite Hframe by set_solver.
      rewrite Hreg. apply lookup_insert_ne. set_solver.
    + congruence.
    + congruence.
    + intros Hw. apply Hwf. rewrite Hreg. intros dc.
      destruct (decide (sa_dcLocation c = dc)) as [->|Hne].
      * rewrite lookup_insert_eq. discriminate.
      * rewrite lookup_insert_ne by exact Hne. apply Hw.
Qed.

(** X5: only SetUpAllocator writes the registry, and it only adds or
    replaces.  After any run of manager operations, the keys are those the
    registry had plus the labels set up during the run (none is ever
    removed), the entry of a label that no SetUpAllocator of the run names is
    the one it was, the root path and the member of the manager are
    unchanged, and no nil pointer has been stored. *)
Theorem runOps_registry_frame (ops : list ManagerOp) (w : World) :
  let w' := runOps ops w in
  dom (allocatorGroups (am w')) =
    dom (allocatorGroups (am w)) ∪ list_to_set (setUpLabels ops) /\
  (forall dc, dc ∉ setUpLabels ops ->
     allocatorGroups (am w') !! dc = allocatorGroups (am w) !! dc) /\
  rootPath (am w') = rootPath (am w) /\
  member (am w') = member (am w) /\
  (registry_wf (allocatorGroups (am w)) -> registry_wf (allocatorGroups (am w'))).
Proof. exact (runOps_frame ops w). Qed.

(** *** Registered groups *)

Lemma group_consistent_config (a a' : AllocatorManager) (dc : string) (g : allocatorGroup) :
  rootPath a' = rootPath a -> member a' = member a ->
  group_consistent a dc g -> group_consistent a' dc g.
Proof.
  intros Hr Hm (H1 & H2 & H3 & H4). split; [exact H1|]. split; [exact H2|]. split.
  - rewrite H3. unfold getAllocatorPath. rewrite Hr. reflexivity.
  - destruct (ag_allocator g); [exact H4|]. rewrite Hm. exact H4.
Qed.

Lemma setUpGroupOf_consistent (w : World) (parentCtx : Ctx) (parentCancel : CancelFunc)
    (dc : string) (leadership : Leadership) :
  group_consistent (am w) dc (setUpGroupOf w parentCtx parentCancel dc leadership) /\
  allocatorPtr (ag_allocator (setUpGroupOf w parentCtx parentCancel dc leadership))
    = next_ptr w.
Proof.
  unfold group_consistent, setUpGroupOf, setUpAllocatorOf. simpl.
  destruct (String.eqb_spec dc GlobalDCLocation) as [Heq|Hne]; simpl; repeat split;
    assumption.
Qed.

Lemma runOp_inv (op : ManagerOp) (w : World) : registry_inv w -> registry_inv (runOp op w).
Proof.
  intros [Hcons Huniq]. pose proof (runOp_heap op w) as Hop.
  destruct op;
    try (destruct Hop as [Ham Hptr]; unfold registry_inv; rewrite Ham, Hptr;
         split; assumption).
  destruct Hop as (Hreg & Hptr & Hr & Hm).
  destruct (setUpGroupOf_consistent w (sa_parentCtx c) (sa_parentCancel c)
              (sa_dcLocation c) (sa_leadership c)) as [Hnew Hnewptr].
  unfold registry_inv. rewrite Hreg, Hptr. split.
  - intros dc g. destruct (decide (sa_dcLocation c = dc)) as [<-|Hne].
    + rewrite lookup_insert_eq. intros [= <-]. split.
      * eapply group_consistent_config; eassumption.
      * rewrite Hnewptr. lia.
    + rewrite lookup_insert_ne by exact Hne. intros Hg.
      destruct (Hcons dc g Hg) as [Hc Hp]. split; [|lia].
      eapply group_consistent_config; eassumption.
  - intros dc1 dc2 g1 g2.
    destruct (decide (sa_dcLocation c = dc1)) as [<-|Hne1];
      destruct (decide (sa_dcLocation c = dc2)) as [<-|Hne2].
    + congruence.
    + rewrite lookup_insert_eq, lookup_insert_ne by exact Hne2.
      intros [= <-] Hg2 _. destruct (Hcons _ _ Hg2) as [_ Hp]. rewrite Hnewptr. lia.
    + rewrite lookup_insert_eq, lookup_insert_ne by exact Hne1.
      intros Hg1 [= <-] _. destruct (Hcons _ _ Hg1) as [_ Hp]. rewrite Hnewptr. lia.
    + rewrite !lookup_insert_ne by assumption. apply Huniq.
Qed.

Lemma runOps_inv (ops : list ManagerOp) (w : World) :
  registry_inv w -> registry_inv (runOps ops w).
Proof.
  revert w. induction ops as [|op ops IH]; intros w Hw; [exact Hw|].
  rewrite runOps_cons. apply IH, runOp_inv, Hw.
Qed.

(** X6: in the registry of a manager made by NewAllocatorManager, after any
    run of operations, every group agrees with the label it is stored under:
    its dcLocation is the label, its allocator is the global variant exactly
    for the GLOBAL label and otherwise a local allocator of that label and of
    the manager's member, the allocator was built with the group's leadership
    and with the path getAllocatorPath gives for the label; and groups under
    different labels hold different allocators. *)
Theorem registered_groups_consistent (ops : list ManagerOp)
    (m : Member) (root : string) (si : Duration) (gap : DurationFn) (e : Ext) :
  let w := runOps ops (newWorld m root si gap e) in
  (forall dc g, allocatorGroups (am w) !! dc = Some (Some g) ->
     group_consistent (am w) dc g /\
     allocatorRootPath (ag_allocator g) =
       (if String.eqb dc GlobalDCLocation then root else GoPath.Join [root; dc])) /\
  (forall dc1 dc2 g1 g2,
     allocatorGroups (am w) !! dc1 = Some (Some g1) ->
     allocatorGroups (am w) !! dc2 = Some (Some g2) ->
     dc1 <> dc2 ->
     ag_allocator g1 <> ag_allocator g2).
Proof.
  intros w.
  assert (Hinv : registry_inv w).
  { apply runOps_inv. split.
    - intros dc g. simpl. rewrite lookup_empty. discriminate.
    - intros dc1 dc2 g1 g2. simpl. rewrite lookup_empty. discriminate. }
  assert (Hroot : rootPath (am w) = root).
  { subst w. destruct (runOps_frame ops (newWorld m root si gap e))
      as (_ & _ & Hr & _). exact Hr. }
  destruct Hinv as [Hcons Huniq]. split.
  - intros dc g Hg. destruct (Hcons dc g Hg) as [Hc _]. split; [exact Hc|].
    destruct Hc as (_ & _ & Hpath & _). rewrite Hpath. unfold getAllocatorPath.
    rewrite Hroot. reflexivity.
  - intros dc1 dc2 g1 g2 Hg1 Hg2 Hne Heq.
    apply (Huniq dc1 dc2 g1 g2 Hg1 Hg2 Hne). rewrite Heq. reflexivity.
Qed.

End Heap.

(** ** Store paths of different labels *)

Section StorePaths.
Context `{Collaborators}.

Lemma append_cancel_l (p s1 s2 : string) : p +:+ s1 = p +:+ s2 -> s1 = s2.
Proof. induction p as [|c p IH]; simpl; [auto|]. intros [= Heq]. auto. Qed.

Lemma getAllocatorPath_inj (a : AllocatorManager) (dc1 dc2 : string) :
  GoPath.clean_absolute (rootPath a) ->
  GoPath.plain_label dc1 = true ->
  GoPath.plain_label dc2 = true ->
  getAllocatorPath a dc1 = getAllocatorPath a dc2 ->
  dc1 = dc2.
Proof.
  intros Hroot H1 H2.
  assert (Hlocal : forall dc, GoPath.plain_label dc = true -> dc <> GlobalDCLocation ->
                     getAllocatorPath a dc = rootPath a +:+ "/" +:+ dc).
  { intros dc Hdc Hne. unfold getAllocatorPath. apply String.eqb_neq in Hne.
    rewrite Hne. apply Join_clean_absolute; assumption. }
  assert (Hglobal : forall dc, dc = GlobalDCLocation -> getAllocatorPath a dc = rootPath a).
  { intros dc ->. unfold getAllocatorPath. rewrite String.eqb_refl. reflexivity. }
  destruct (decide (dc1 = GlobalDCLocation)) as [E1|N1];
    destruct (decide (dc2 = GlobalDCLocation)) as [E2|N2].
  - congruence.
  - rewrite (Hglobal dc1 E1), (Hlocal dc2 H2 N2). intros Heq. exfalso.
    symmetry in Heq. revert Heq. apply append_not_self. simpl. lia.
  - rewrite (Hglobal dc2 E2), (Hlocal dc1 H1 N1). intros Heq. exfalso.
    revert Heq. apply append_not_self. simpl. lia.
  - rewrite (Hlocal dc1 H1 N1), (Hlocal dc2 H2 N2). intros Heq.
    apply append_cancel_l in Heq. injection Heq as Heq. exact Heq.
Qed.

(** X7: for a root path of the form /e1/.../en, labels that are plain path
    elements get store paths of their own: two different labels, the GLOBAL
    label included, never share a store path. *)
Theorem getAllocatorPath_distinct (a : AllocatorManager) (dc1 dc2 : string) :
  GoPath.clean_absolute (rootPath a) ->
  GoPath.plain_label dc1 = true ->
  GoPath.plain_label dc2 = true ->
  dc1 <> dc2 ->
  getAllocatorPath a dc1 <> getAllocatorPath a dc2.
Proof.
  intros Hroot H1 H2 Hne Heq. apply Hne.
  exact (getAllocatorPath_inj a dc1 dc2 Hroot H1 H2 Heq).
Qed.

End StorePaths.

(** ** The registry lock *)

Section LockDiscipline.
Context `{Collaborators}.

Lemma lock_steps_no_lock (evs : list Event) (st : LockState) :
  forallb no_lock evs = true -> fold_left lock_step evs (Some st) = Some st.
Proof.
  induction evs as [|e evs IH]; simpl; [reflexivity|].
  intros He. apply andb_prop in He. destruct He as [He Hevs].
  destruct e; try discriminate; simpl; apply IH, Hevs.
Qed.

Lemma lock_neutral_refl (w : World) : lock_neutral w w.
Proof. exists []. rewrite app_nil_r. split; reflexivity. Qed.

Lemma lock_neutral_trans (w1 w2 w3 : World) :
  lock_neutral w1 w2 -> lock_neutral w2 w3 -> lock_neutral w1 w3.
Proof.
  intros (e1 & H1 & L1) (e2 & H2 & L2). exists (e1 ++ e2).
  rewrite H2, H1, <- app_assoc. split; [reflexivity|].
  unfold lock_state in *. rewrite fold_left_app, L1. exact L2.
Qed.

Lemma adds_no_lock_neutral (w w' : World) : adds no_lock w w' -> lock_neutral w w'.
Proof.
  intros (evs & Htr & HP). exists evs. split; [exact Htr|].
  apply lock_steps_no_lock, HP.
Qed.

Lemma no_lock_neutral {A} (m : M A) :
  preserves (adds no_lock) m -> preserves lock_neutral m.
Proof. intros Hm w. apply adds_no_lock_neutral, Hm. Qed.

(** [Lock(); defer Unlock(); body]: the lock is released whenever the body
    ends, if the body itself does not touch the lock. *)
Lemma locked_section {A} (body : M A) :
  preserves (adds no_lock) body -> ends body ->
  preserves lock_neutral (emit EvLock ;; defer (emit EvUnlock) body).
Proof.
  intros Hbody Hends w. unfold bind at 1. unfold emit at 1. simpl.
  match goal with
  | |- context [defer _ _ ?w0] => set (w1 := w0)
  end.
  rewrite (defer_emit EvUnlock body w1 (Hends w1)). simpl.
  destruct (Hbody w1) as (evs & Htr & HP).
  exists ([EvLock] ++ evs ++ [EvUnlock]). split.
  - rewrite Htr. subst w1. simpl. rewrite <- !app_assoc. reflexivity.
  - unfold lock_state. rewrite !fold_left_app. simpl.
    rewrite (lock_steps_no_lock evs WriteHeld HP). reflexivity.
Qed.

Lemma rlocked_section {A} (body : M A) :
  preserves (adds no_lock) body -> ends body ->
  preserves lock_neutral (emit EvRLock ;; defer (emit EvRUnlock) body).
Proof.
  intros Hbody Hends w. unfold bind at 1. unfold emit at 1. simpl.
  match goal with
  | |- context [defer _ _ ?w0] => set (w1 := w0)
  end.
  rewrite (defer_emit EvRUnlock body w1 (Hends w1)). simpl.
  destruct (Hbody w1) as (evs & Htr & HP).
  exists ([EvRLock] ++ evs ++ [EvRUnlock]). split.
  - rewrite Htr. subst w1. simpl. rewrite <- !app_assoc. reflexivity.
  - unfold lock_state. rewrite !fold_left_app. simpl.
    rewrite (lock_steps_no_lock evs ReadHeld HP). reflexivity.
Qed.

Lemma adds_set_allocatorGroups (P : Event -> bool) (m : gmap string (ptr allocatorGroup)) :
  preserves (adds P) (set_allocatorGroups m).
Proof. intros w. exists []. simpl. rewrite app_nil_r. split; reflexivity. Qed.

Lemma adds_fresh_ptr (P : Event -> bool) : preserves (adds P) fresh_ptr.
Proof. intros w. exists []. simpl. rewrite app_nil_r. split; reflexivity. Qed.

Lemma resetAllocatorGroup_lock (dcLocation : string) :
  preserves lock_neutral (resetAllocatorGroup dcLocation).
Proof.
  unfold resetAllocatorGroup. apply locked_section; [adds_walk | ends_walk].
Qed.

Lemma HandleTSORequest_lock (dcLocation : string) (count : Z) :
  preserves lock_neutral (HandleTSORequest dcLocation count).
Proof.
  unfold HandleTSORequest. apply rlocked_section; [adds_walk | ends_walk].
Qed.

Lemma GetAllocator_lock (dcLocation : string) :
  preserves lock_neutral (GetAllocator dcLocation).
Proof.
  unfold GetAllocator. apply rlocked_section; [adds_walk | ends_walk].
Qed.

Lemma getAllocatorGroups_lock (filters : list AllocatorGroupFilter) :
  preserves lock_neutral (getAllocatorGroups filters).
Proof.
  unfold getAllocatorGroups. apply rlocked_section; [adds_walk | ends_walk].
Qed.

Lemma SetUpAllocator_lock (parentCtx : Ctx) (parentCancel : CancelFunc)
    (dcLocation : string) (leadership : Leadership) :
  preserves lock_neutral (SetUpAllocator parentCtx parentCancel dcLocation leadership).
Proof.
  unfold SetUpAllocator.
  apply (preserves_bind lock_neutral lock_neutral_trans);
    [apply (preserves_get_am lock_neutral lock_neutral_refl) | intros a].
  apply (preserves_bind lock_neutral lock_neutral_trans).
  - apply no_lock_neutral.
    destruct (String.eqb dcLocation GlobalDCLocation);
      unfold NewGlobalTSOAllocator, NewLocalTSOAllocator; adds_walk;
      apply adds_fresh_ptr.
  - intros allocator. apply locked_section.
    + unfold go. adds_walk; apply adds_set_allocatorGroups.
    + unfold go. ends_walk.
Qed.

Lemma updateAllocator_lock (ag : ptr allocatorGroup) :
  preserves lock_neutral (updateAllocator ag).
Proof. apply no_lock_neutral. unfold updateAllocator. adds_walk. Qed.

Lemma leaderTickLoop_adds (P : Event -> bool) (fuel : nat) (t : Ticker) (ctx : Ctx)
    (a : LocalTSOAllocator) :
  (forall e, is_leading_event e = true -> P e = true) ->
  preserves (adds P) (leaderTickLoop fuel t ctx a).
Proof.
  intros HP. induction fuel as [|fuel IH]; simpl.
  - apply (preserves_running _ (adds_refl P)).
  - walk (adds P) (adds_refl P) (adds_trans P);
      first [exact IH | apply adds_call; intro; apply HP; reflexivity].
Qed.

Lemma campaignAllocatorLeader_lock (fuel : nat) (parentCtx : Ctx) (a : LocalTSOAllocator) :
  preserves lock_neutral (campaignAllocatorLeader fuel parentCtx a).
Proof.
  unfold campaignAllocatorLeader.
  apply (preserves_bind lock_neutral lock_neutral_trans);
    [apply no_lock_neutral, adds_call; reflexivity | intros [err|]].
  { apply (preserves_ret lock_neutral lock_neutral_refl). }
  apply (preserves_bind lock_neutral lock_neutral_trans);
    [apply no_lock_neutral, adds_call; reflexivity | intros cc].
  apply (preserves_defer lock_neutral lock_neutral_trans);
    [apply no_lock_neutral, adds_call; reflexivity |].
  apply (preserves_defer lock_neutral lock_neutral_trans);
    [apply resetAllocatorGroup_lock |].
  apply no_lock_neutral. unfold campaignLeading, go. adds_walk.
  apply leaderTickLoop_adds. intros [] He; try discriminate; reflexivity.
Qed.

Lemma allocatorLeaderLoop_lock (fuel : nat) (parentCtx : Ctx) (a : ptr LocalTSOAllocator) :
  preserves lock_neutral (allocatorLeaderLoop fuel parentCtx a).
Proof.
  induction fuel as [|fuel IH]; simpl.
  - apply (preserves_running _ lock_neutral_refl).
  - apply (preserves_bind lock_neutral lock_neutral_trans);
      [apply no_lock_neutral, adds_call; reflexivity | intros done].
    apply (preserves_bind lock_neutral lock_neutral_trans);
      [apply (preserves_deref lock_neutral lock_neutral_refl) | intros l].
    destruct done; [apply (preserves_ret lock_neutral lock_neutral_refl)|].
    apply (preserves_bind lock_neutral lock_neutral_trans);
      [apply no_lock_neutral, adds_call; reflexivity | intros [[leader rev] again]].
    destruct again; [exact IH|].
    apply (preserves_bind lock_neutral lock_neutral_trans).
    { destruct leader; [apply no_lock_neutral, adds_call; reflexivity
                       | apply (preserves_ret lock_neutral lock_neutral_refl)]. }
    intros _. apply (preserves_bind lock_neutral lock_neutral_trans);
      [apply campaignAllocatorLeader_lock | intros _; exact IH].
Qed.

(** X8: every operation of the manager leaves the registry lock free and
    respects it on the way: along the events of any run of operations,
    started with the lock free, no lock is taken while one is held and none
    is released that is not held, and at the end (also when an operation
    panicked, or is cut while still in one of its loops) no lock is held. *)
Theorem operations_release_the_lock (ops : list ManagerOp) (w : World) :
  exists evs,
    trace (runOps ops w) = trace w ++ evs /\ lock_state evs = Some LockFree.
Proof.
  change (lock_neutral w (runOps ops w)).
  revert w. induction ops as [|op ops IH]; intros w; [apply lock_neutral_refl|].
  rewrite runOps_cons. eapply lock_neutral_trans; [|apply IH].
  destruct op; cbn [runOp].
  - apply SetUpAllocator_lock.
  - apply resetAllocatorGroup_lock.
  - apply updateAllocator_lock.
  - apply HandleTSORequest_lock.
  - apply getAllocatorGroups_lock.
  - apply campaignAllocatorLeader_lock.
  - apply allocatorLeaderLoop_lock.
Qed.

End LockDiscipline.

(** ** Leading *)

Section Leading.
Context `{Collaborators}.

Lemma held_round_leading (e : Event) : is_held_round e = true -> is_leading_event e = true.
Proof. destruct e as [X c x| | | | | | | |]; try discriminate. destruct c; auto. Qed.

Lemma leading_no_teardown (e : Event) : is_leading_event e = true -> is_teardown e = false.
Proof. destruct e as [X c x| | | | | | | |]; try discriminate. destruct c; auto; discriminate. Qed.

(** The leading loop, whatever the step budget. *)
Lemma leaderTickLoop_run (fuel : nat) (t : Ticker) (ctx : Ctx) (a : LocalTSOAllocator)
    (w : World) :
  same_heap w (snd (leaderTickLoop fuel t ctx a w)) /\
  exists ticks,
    trace (snd (leaderTickLoop fuel t ctx a w)) = trace w ++ ticks /\
    match fst (leaderTickLoop fuel t ctx a w) with
    | Returned _ => left_leading t ctx a ticks
    | Panicked _ => False
    | Running => forallb is_held_round ticks = true /\ length ticks = 2 * fuel
    end.
Proof.
  split; [apply leaderTickLoop_heap|].
  revert w. induction fuel as [|fuel IH]; intros w.
  - exists []. simpl. rewrite app_nil_r. repeat split.
  - simpl. run.
    destruct (fst (handle _ (SelectTickOrDone t ctx) (ext w))) eqn:Hsel; simpl.
    + destruct (fst (handle _ (IsStillAllocatorLeader a) _)) eqn:Hstill; simpl.
      * match goal with
        | |- context [leaderTickLoop fuel t ctx a ?w0] => destruct (IH w0) as (ticks & Htr & Hout)
        end.
        simpl in Htr.
        exists ([EvCall (SelectTickOrDone t ctx) CaseTick;
                 EvCall (IsStillAllocatorLeader a) true] ++ ticks).
        split; [rewrite Htr, <- !app_assoc; reflexivity|].
        match goal with
        | |- context [leaderTickLoop fuel t ctx a ?w0] =>
            destruct (fst (leaderTickLoop fuel t ctx a w0))
        end.
        -- destruct Hout as (rounds & Hr & Hend).
           exists ([EvCall (SelectTickOrDone t ctx) CaseTick;
                    EvCall (IsStillAllocatorLeader a) true] ++ rounds).
           split; [simpl; exact Hr|].
           destruct Hend as [-> | ->]; [left | right]; reflexivity.
        -- exact Hout.
        -- destruct Hout as [Hr Hlen]. split; [simpl; exact Hr|]. simpl. lia.
      * exists [EvCall (SelectTickOrDone t ctx) CaseTick;
                EvCall (IsStillAllocatorLeader a) false].
        split; [rewrite <- !app_assoc; reflexivity|].
        exists []. split; [reflexivity | right; reflexivity].
    + exists [EvCall (SelectTickOrDone t ctx) CaseDone]. split; [reflexivity|].
      exists []. split; [reflexivity | left; reflexivity].
Qed.

(** X9: the leading loop of the campaign helper ends in one of two ways only:
    the select reports the child context done, or a tick finds the lease
    lost; it never panics.  Every round before that was a tick at which
    IsStillAllocatorLeader answered true, the loop makes no other call, and
    it leaves the registry alone; a loop cut after n rounds has made exactly
    n such ticks. *)
Theorem leaderTickLoop_leaves (fuel : nat) (t : Ticker) (ctx : Ctx) (a : LocalTSOAllocator)
    (w : World) :
  am (snd (leaderTickLoop fuel t ctx a w)) = am w /\
  exists ticks,
    events (leaderTickLoop fuel t ctx a) w = ticks /\
    match fst (leaderTickLoop fuel t ctx a w) with
    | Returned _ => left_leading t ctx a ticks
    | Panicked _ => False
    | Running => forallb is_held_round ticks = true /\ length ticks = 2 * fuel
    end.
Proof.
  destruct (leaderTickLoop_run fuel t ctx a w) as ([Ham _] & ticks & Htr & Hout).
  split; [exact Ham|]. exists ticks. split; [|exact Hout].
  apply events_of_trace, Htr.
Qed.

End Leading.

(** ** The campaign helper, from campaign to step-down *)

Section StepDown.
Context `{Collaborators}.

(** [defer] by cases on how the body and the deferred call end. *)
Lemma defer_eq {A} (d : M unit) (body : M A) (w : World) :
  defer d body w =
    match fst (body w) with
    | Running => (Running, snd (body w))
    | r =>
        (match fst (d (snd (body w))) with
         | Returned _ => r
         | Panicked msg => Panicked msg
         | Running => Running
         end,
         snd (d (snd (body w))))
    end.
Proof.
  unfold defer. destruct (body w) as [r w']. simpl.
  destruct r; [| |reflexivity]; destruct (d w') as [[] w'']; reflexivity.
Qed.

Lemma call_unit (c : extcall unit) (w : World) :
  call c w =
    (Returned tt,
     mkWorld _ (am w) (snd (handle _ c (ext w))) (trace w ++ [EvCall c tt]) (next_ptr w)).
Proof. unfold call. simpl. unit_answers. reflexivity. Qed.

Lemma resetAllocatorGroup_cases (dcLocation : string) (w : World) :
  exists e',
    resetAllocatorGroup dcLocation w =
      (match allocatorGroups (am w) !! dcLocation with
       | Some None => Panicked "invalid memory address or nil pointer dereference"
       | _ => Returned tt
       end,
       mkWorld _ (am w) e'
         (trace w ++ [EvLock] ++ resetEvents (allocatorGroups (am w) !! dcLocation)
            ++ [EvUnlock])
         (next_ptr w)).
Proof.
  unfold resetAllocatorGroup. run. rewrite map_index_ok_lookup.
  destruct (allocatorGroups (am w) !! dcLocation) as [[g|]|]; simpl;
    unit_answers; eexists; rewrite <- !app_assoc; reflexivity.
Qed.

Lemma campaignLeading_init_failed (fuel : nat) (ctx : Ctx) (a : LocalTSOAllocator)
    (w1 : World) (err : error) :
  fst (handle _ (Initialize (LocalAllocator a)) (ext w1)) = Some err ->
  fst (campaignLeading fuel ctx a w1) = Returned tt.
Proof. intros Hi. unfold campaignLeading. run. rewrite Hi. reflexivity. Qed.

(** After a successful Initialize the rest of the helper is the leading loop
    under the deferred stop of its ticker. *)
Lemma campaignLeading_run (fuel : nat) (ctx : Ctx) (a : LocalTSOAllocator) (w1 : World) :
  fst (handle _ (Initialize (LocalAllocator a)) (ext w1)) = None ->
  exists t wl,
    trace wl = trace w1 ++ [EvGo (TaskKeepAllocatorLeader a ctx);
                            EvCall (Initialize (LocalAllocator a)) None;
                            EvCall (EnableAllocatorLeader a) tt;
                            EvCall (NewTicker leaderTickInterval) t] /\
    am wl = am w1 /\
    campaignLeading fuel ctx a w1 =
      defer (call (TickerStop t)) (leaderTickLoop fuel t ctx a) wl.
Proof.
  intros Hi.
  set (e1 := snd (handle _ (Initialize (LocalAllocator a)) (ext w1))).
  set (e2 := snd (handle _ (EnableAllocatorLeader a) e1)).
  set (tk := handle _ (NewTicker leaderTickInterval) e2).
  exists (fst tk).
  exists (mkWorld _ (am w1) (snd tk)
            (trace w1 ++ [EvGo (TaskKeepAllocatorLeader a ctx);
                          EvCall (Initialize (LocalAllocator a)) None;
                          EvCall (EnableAllocatorLeader a) tt;
                          EvCall (NewTicker leaderTickInterval) (fst tk)])
            (next_ptr w1)).
  split; [reflexivity|]. split; [reflexivity|].
  unfold campaignLeading. unfold bind at 1. unfold go, emit at 1. simpl.
  unfold bind at 1. unfold call at 1. simpl. rewrite Hi.
  unfold bind at 1. unfold call at 1. simpl.
  unfold bind at 1. unfold call at 1. simpl.
  subst tk e2 e1. unit_answers. rewrite <- !app_assoc. reflexivity.
Qed.

(** The whole helper, once the campaign is won and Initialize has succeeded,
    by cases on how the leading loop ends. *)
Lemma campaignAllocatorLeader_led (fuel : nat) (parentCtx : Ctx) (a : LocalTSOAllocator)
    (w : World) :
  fst (handle _ (CampaignAllocatorLeader a defaultAllocatorLeaderLease) (ext w)) = None ->
  fst (handle _ (Initialize (LocalAllocator a)) (ext (afterCampaign parentCtx a w))) = None ->
  let cc := childScope parentCtx a w in
  let entry := allocatorGroups (am w) !! lta_dcLocation a in
  exists t ticks,
    am (snd (campaignAllocatorLeader fuel parentCtx a w)) = am w /\
    ((fst (campaignAllocatorLeader fuel parentCtx a w) = Running /\
      trace (snd (campaignAllocatorLeader fuel parentCtx a w)) =
        trace w ++ leadingPrefix parentCtx a cc t ++ ticks /\
      forallb is_held_round ticks = true /\ length ticks = 2 * fuel)
     \/
     (fst (campaignAllocatorLeader fuel parentCtx a w) =
        match entry with
        | Some None => Panicked "invalid memory address or nil pointer dereference"
        | _ => Returned tt
        end /\
      trace (snd (campaignAllocatorLeader fuel parentCtx a w)) =
        trace w ++ leadingPrefix parentCtx a cc t ++ ticks
          ++ [EvCall (TickerStop t) tt; EvLock] ++ resetEvents entry
          ++ [EvUnlock; EvCall (CallCancel (snd cc)) tt] /\
      left_leading t (fst cc) a ticks)).
Proof.
  intros Hc Hi cc entry.
  destruct (afterCampaign_trace parentCtx a w Hc) as [Htr1 Ham1].
  rewrite (campaignAllocatorLeader_campaign_ok fuel parentCtx a w Hc).
  fold cc. fold cc in Htr1.
  set (w1 := afterCampaign parentCtx a w) in *. clearbody w1 cc.
  destruct (campaignLeading_run fuel (fst cc) a w1 Hi) as (t & wl & Htrl & Haml & Hbody).
  destruct (leaderTickLoop_run fuel t (fst cc) a wl) as ([HamL _] & ticks & HtrL & Hout).
  exists t, ticks.
  assert (Hprefix : trace wl = trace w ++ leadingPrefix parentCtx a cc t).
  { rewrite Htrl, Htr1, <- app_assoc. reflexivity. }
  rewrite (defer_eq (call _)), (defer_eq (resetAllocatorGroup _)), Hbody.
  rewrite (defer_eq (call (TickerStop t))).
  destruct (fst (leaderTickLoop fuel t (fst cc) a wl)) as [[]| |] eqn:Hr; [|destruct Hout|].
  - (* the loop was left *)
    rewrite call_unit. cbn [fst snd].
    match goal with
    | |- context [resetAllocatorGroup ?dc ?w0] =>
        destruct (resetAllocatorGroup_cases dc w0) as [e' Hreset]
    end.
    cbn [am trace next_ptr] in Hreset. rewrite Hreset. cbn [fst snd].
    rewrite HamL, Haml, Ham1. fold entry.
    split; [destruct entry as [[g|]|]; rewrite call_unit; reflexivity|].
    right. split; [|split; [|exact Hout]].
    + destruct entry as [[g|]|]; rewrite call_unit; reflexivity.
    + destruct entry as [[g|]|]; rewrite call_unit; cbn [fst snd trace];
        rewrite HtrL, Hprefix, <- !app_assoc; reflexivity.
  - (* the loop is still running *)
    cbn [fst snd]. destruct HamL. split; [congruence|]. left.
    split; [reflexivity|]. split; [|exact Hout].
    rewrite HtrL, Hprefix, <- app_assoc. reflexivity.
Qed.

(** X10: once the campaign is won and Initialize has succeeded, the helper
    that is still in its loop after n rounds has made the calls of the
    set-up (campaign, child context, keep-alive goroutine, Initialize,
    EnableAllocatorLeader, NewTicker) and then n ticks that all found the
    lease held.  Up to there it has reset no allocator and no leadership,
    cancelled no context, stopped no ticker, taken no lock, and the registry
    is as it was. *)
Theorem campaignAllocatorLeader_keeps_leading (fuel : nat) (parentCtx : Ctx)
    (a : LocalTSOAllocator) (w : World) :
  fst (handle _ (CampaignAllocatorLeader a defaultAllocatorLeaderLease) (ext w)) = None ->
  fst (handle _ (Initialize (LocalAllocator a)) (ext (afterCampaign parentCtx a w))) = None ->
  fst (campaignAllocatorLeader fuel parentCtx a w) = Running ->
  exists t ticks,
    events (campaignAllocatorLeader fuel parentCtx a) w =
      leadingPrefix parentCtx a (childScope parentCtx a w) t ++ ticks /\
    forallb is_held_round ticks = true /\
    length ticks = 2 * fuel /\
    forallb (fun e => negb (is_teardown e) && negb (is_lock_event e))
      (events (campaignAllocatorLeader fuel parentCtx a) w) = true /\
    am (snd (campaignAllocatorLeader fuel parentCtx a w)) = am w.
Proof.
  intros Hc Hi Hrun.
  destruct (campaignAllocatorLeader_led fuel parentCtx a w Hc Hi)
    as (t & ticks & Ham & [(_ & Htr & Hheld & Hlen) | (Hout & _)]).
  - exists t, ticks.
    assert (Hev : events (campaignAllocatorLeader fuel parentCtx a) w =
                    leadingPrefix parentCtx a (childScope parentCtx a w) t ++ ticks)
      by (apply events_of_trace; exact Htr).
    rewrite Hev. repeat split; try assumption.
    rewrite forallb_app. apply andb_true_intro. split; [reflexivity|].
    rewrite forallb_forall in *. intros e He.
    pose proof (held_round_leading e (Hheld e He)) as Hl.
    rewrite (leading_no_teardown e Hl).
    destruct e as [X c x| | | | | | | |]; try discriminate. reflexivity.
  - rewrite Hrun in Hout.
    destruct (allocatorGroups (am w) !! lta_dcLocation a) as [[g|]|]; discriminate.
Qed.

(** X11: once the campaign is won and Initialize has succeeded, the helper
    leaves its loop only because the child context is done or a tick found
    the lease lost, and then runs its deferred calls in the reverse order of
    their registration: the ticker is stopped, then the group of the label is
    reset under the exclusive lock (allocator, then leadership, when the
    label is registered), then the child context is cancelled.  It returns,
    unless a nil pointer is stored under the label, and the registry is as it
    was. *)
Theorem campaignAllocatorLeader_step_down (fuel : nat) (parentCtx : Ctx)
    (a : LocalTSOAllocator) (w : World) :
  fst (handle _ (CampaignAllocatorLeader a defaultAllocatorLeaderLease) (ext w)) = None ->
  fst (handle _ (Initialize (LocalAllocator a)) (ext (afterCampaign parentCtx a w))) = None ->
  fst (campaignAllocatorLeader fuel parentCtx a w) <> Running ->
  let cc := childScope parentCtx a w in
  let entry := allocatorGroups (am w) !! lta_dcLocation a in
  exists t ticks,
    left_leading t (fst cc) a ticks /\
    events (campaignAllocatorLeader fuel parentCtx a) w =
      leadingPrefix parentCtx a cc t ++ ticks
        ++ [EvCall (TickerStop t) tt; EvLock] ++ resetEvents entry
        ++ [EvUnlock; EvCall (CallCancel (snd cc)) tt] /\
    (entry <> Some None -> fst (campaignAllocatorLeader fuel parentCtx a w) = Returned tt) /\
    am (snd (campaignAllocatorLeader fuel parentCtx a w)) = am w.
Proof.
  intros Hc Hi Hend cc entry.
  destruct (campaignAllocatorLeader_led fuel parentCtx a w Hc Hi)
    as (t & ticks & Ham & [(Hrun & _) | (Hout & Htr & Hleft)]); [contradiction|].
  exists t, ticks. fold cc entry in Hout, Htr, Hleft.
  split; [exact Hleft|]. split; [apply events_of_trace; exact Htr|].
  split; [|exact Ham].
  intros Hnil. rewrite Hout. destruct entry as [[g|]|]; congruence.
Qed.

End StepDown.

(** ** The election loop *)

Section ElectionLoop.
Context `{Collaborators}.

Lemma campaignLeading_no_panic (fuel : nat) (ctx : Ctx) (a : LocalTSOAllocator) (w : World)
    (msg : string) :
  fst (campaignLeading fuel ctx a w) <> Panicked msg.
Proof.
  destruct (fst (handle _ (Initialize (LocalAllocator a)) (ext w))) as [err|] eqn:Hi.
  - rewrite (campaignLeading_init_failed fuel ctx a w err Hi). discriminate.
  - destruct (campaignLeading_run fuel ctx a w Hi) as (t & wl & _ & _ & Hbody).
    rewrite Hbody, defer_eq.
    destruct (leaderTickLoop_run fuel t ctx a wl) as (_ & ticks & _ & Hout).
    destruct (fst (leaderTickLoop fuel t ctx a wl)) as [[]| |]; [|destruct Hout|].
    + rewrite call_unit. discriminate.
    + discriminate.
Qed.

(** The campaign helper panics only on a nil pointer stored under its label. *)
Lemma campaignAllocatorLeader_panics (fuel : nat) (parentCtx : Ctx) (a : LocalTSOAllocator)
    (w : World) (msg : string) :
  fst (campaignAllocatorLeader fuel parentCtx a w) = Panicked msg ->
  allocatorGroups (am w) !! lta_dcLocation a = Some None.
Proof.
  destruct (fst (handle _ (CampaignAllocatorLeader a defaultAllocatorLeaderLease) (ext w)))
    as [err|] eqn:Hc.
  - rewrite (proj1 (campaignAllocatorLeader_campaign_failed fuel parentCtx a w err Hc)).
    discriminate.
  - rewrite (campaignAllocatorLeader_campaign_ok fuel parentCtx a w Hc).
    destruct (afterCampaign_trace parentCtx a w Hc) as [_ Ham].
    set (w1 := afterCampaign parentCtx a w) in *. clearbody w1.
    set (ctx := fst (childScope parentCtx a w)). clearbody ctx.
    rewrite (defer_eq (call _)), (defer_eq (resetAllocatorGroup _)).
    pose proof (campaignLeading_no_panic fuel ctx a w1) as Hnp.
    assert (Hh : am (snd (campaignLeading fuel ctx a w1)) = am w1).
    { unfold campaignLeading, go.
      match goal with
      | |- am (snd (?m w1)) = am w1 => assert (Hp : preserves same_heap m)
      end.
      { heap_walk. apply leaderTickLoop_heap. }
      apply Hp. }
    destruct (campaignLeading fuel ctx a w1) as [r w2]. cbn [fst snd] in *.
    destruct (resetAllocatorGroup_cases (lta_dcLocation a) w2) as [e' Hreset].
    rewrite Hh, Ham in Hreset.
    destruct r as [[]|m|]; cbn [fst snd]; [| |discriminate].
    + rewrite Hreset. cbn [fst snd].
      destruct (allocatorGroups (am w) !! lta_dcLocation a) as [[g|]|];
        rewrite call_unit; cbn [fst]; congruence.
    + exfalso. exact (Hnp m eq_refl).
Qed.

(** One round of the election loop. *)
Lemma allocatorLeaderLoop_round (fuel : nat) (parentCtx : Ctx) (a : LocalTSOAllocator)
    (w : World) :
  allocatorLeaderLoop (S fuel) parentCtx (Some a) w =
    let d := handle _ (CtxDone parentCtx) (ext w) in
    let w1 := mkWorld _ (am w) (snd d) (trace w ++ [EvCall (CtxDone parentCtx) (fst d)])
                (next_ptr w) in
    if fst d then (Returned tt, w1)
    else
      let chk := handle _ (CheckAllocatorLeader a) (snd d) in
      let w2 := mkWorld _ (am w) (snd chk)
                  (trace w ++ [EvCall (CtxDone parentCtx) (fst d);
                               EvCall (CheckAllocatorLeader a) (fst chk)])
                  (next_ptr w) in
      if snd (fst chk) then allocatorLeaderLoop fuel parentCtx (Some a) w2
      else
        (match fst (fst (fst chk)) with
         | Some leader =>
             call (WatchAllocatorLeader a parentCtx leader (snd (fst (fst chk))))
         | None => ret tt
         end ;;
         campaignAllocatorLeader fuel parentCtx a ;;
         allocatorLeaderLoop fuel parentCtx (Some a)) w2.
Proof.
  cbn [allocatorLeaderLoop]. unfold bind at 1. unfold call at 1. cbn [fst snd].
  unfold bind at 1. unfold deref, ret at 1.
  destruct (fst (handle _ (CtxDone parentCtx) (ext w))); [reflexivity|].
  unfold bind at 1. unfold call at 1. cbn [fst snd ext trace am next_ptr].
  rewrite <- app_assoc. cbn [app].
  destruct (handle _ (CheckAllocatorLeader a) _) as [[[leader rev] again] e2].
  cbn [fst snd]. destruct again; reflexivity.
Qed.

(** The election loop by its outcome. *)
Lemma allocatorLeaderLoop_run (fuel : nat) (parentCtx : Ctx)
    (allocator : ptr LocalTSOAllocator) (w : World) :
  exists evs,
    trace (snd (allocatorLeaderLoop fuel parentCtx allocator w)) = trace w ++ evs /\
    match fst (allocatorLeaderLoop fuel parentCtx allocator w) with
    | Returned _ =>
        allocator <> None /\
        exists evs', evs = evs' ++ [EvCall (CtxDone parentCtx) true]
    | Panicked _ =>
        allocator = None \/
        exists a, allocator = Some a /\
                  allocatorGroups (am w) !! lta_dcLocation a = Some None
    | Running => True
    end.
Proof.
  revert w. induction fuel as [|fuel IH]; intros w.
  - exists []. simpl. rewrite app_nil_r. split; [reflexivity | exact I].
  - destruct allocator as [a|].
    2:{ eexists [_]. simpl. run. split; [reflexivity | left; reflexivity]. }
    rewrite allocatorLeaderLoop_round. cbv zeta.
    set (d := handle _ (CtxDone parentCtx) (ext w)).
    destruct (fst d) eqn:Hdone.
    { eexists [_]. cbn [fst snd trace]. split; [reflexivity|].
      split; [discriminate|]. exists []. reflexivity. }
    set (chk := handle _ (CheckAllocatorLeader a) (snd d)).
    set (w2 := mkWorld _ (am w) (snd chk) _ (next_ptr w)).
    assert (Htr2 : trace w2 = trace w ++ [EvCall (CtxDone parentCtx) false;
                                          EvCall (CheckAllocatorLeader a) (fst chk)])
      by reflexivity.
    assert (Ham2 : am w2 = am w) by reflexivity.
    clearbody w2.
    destruct (snd (fst chk)).
    + (* check again *)
      destruct (IH w2) as (evs & Htr & Hout).
      exists ([EvCall (CtxDone parentCtx) false; EvCall (CheckAllocatorLeader a) (fst chk)]
                ++ evs).
      split; [rewrite Htr, Htr2, <- !app_assoc; reflexivity|].
      destruct (fst (allocatorLeaderLoop fuel parentCtx (Some a) w2)) as [u|m|]; [| |exact I].
      * destruct Hout as (Hne & evs' & ->). split; [exact Hne|].
        eexists (_ :: _ :: evs'). reflexivity.
      * rewrite <- Ham2. exact Hout.
    + (* watch the leader, if there is one, then campaign *)
      set (watch := match fst (fst (fst chk)) with
                    | Some l => call (WatchAllocatorLeader a parentCtx l (snd (fst (fst chk))))
                    | None => ret tt
                    end).
      assert (Hw : exists evw w3,
                 watch w2 = (Returned tt, w3) /\ trace w3 = trace w2 ++ evw /\ am w3 = am w2).
      { subst watch. destruct (fst (fst (fst chk))) as [l|].
        - eexists [_], _. rewrite call_unit. repeat split.
        - exists [], w2. unfold ret. rewrite app_nil_r. repeat split. }
      destruct Hw as (evw & w3 & Hw & Htr3 & Ham3).
      assert (HR : (watch ;; campaignAllocatorLeader fuel parentCtx a ;;
                    allocatorLeaderLoop fuel parentCtx (Some a)) w2 =
                   match campaignAllocatorLeader fuel parentCtx a w3 with
                   | (Returned _, w') => allocatorLeaderLoop fuel parentCtx (Some a) w'
                   | (Panicked msg, w') => (Panicked msg, w')
                   | (Running, w') => (Running, w')
                   end).
      { unfold bind at 1. rewrite Hw. reflexivity. }
      rewrite HR. clear HR.
      destruct (campaignAllocatorLeader_lock fuel parentCtx a w3) as (evc & Htrc & _).
      pose proof (proj1 (campaignAllocatorLeader_heap fuel parentCtx a w3)) as Hamc.
      pose proof (campaignAllocatorLeader_panics fuel parentCtx a w3) as Hpc.
      destruct (campaignAllocatorLeader fuel parentCtx a w3) as [rc wc].
      cbn [fst snd] in *.
      destruct rc as [u|m|]; cbv beta iota; cbn [fst snd].
      * destruct (IH wc) as (evs & Htr & Hout).
        exists ([EvCall (CtxDone parentCtx) false;
                 EvCall (CheckAllocatorLeader a) (fst chk)] ++ evw ++ evc ++ evs).
        split; [rewrite Htr, Htrc, Htr3, Htr2, <- !app_assoc; reflexivity|].
        destruct (fst (allocatorLeaderLoop fuel parentCtx (Some a) wc)) as [u'|m|];
          [| |exact I].
        -- destruct Hout as (Hne & evs' & ->). split; [exact Hne|].
           exists ([EvCall (CtxDone parentCtx) false;
                    EvCall (CheckAllocatorLeader a) (fst chk)] ++ evw ++ evc ++ evs').
           rewrite <- !app_assoc. reflexivity.
        -- destruct Hout as [Hn | (a' & Ha' & Hnil)]; [discriminate|].
           right. exists a'. split; [exact Ha'|].
           rewrite <- Hnil, Hamc, Ham3, Ham2. reflexivity.
      * exists ([EvCall (CtxDone parentCtx) false;
                 EvCall (CheckAllocatorLeader a) (fst chk)] ++ evw ++ evc).
        split; [rewrite Htrc, Htr3, Htr2, <- !app_assoc; reflexivity|].
        right. exists a. split; [reflexivity|].
        rewrite <- Ham2, <- Ham3. exact (Hpc m eq_refl).
      * exists ([EvCall (CtxDone parentCtx) false;
                 EvCall (CheckAllocatorLeader a) (fst chk)] ++ evw ++ evc).
        split; [rewrite Htrc, Htr3, Htr2, <- !app_assoc; reflexivity | exact I].
Qed.

(** X12: the election loop of a local allocator returns only when it has just
    seen parentCtx done: the last thing it did is the check of parentCtx, and
    the answer was yes.  It panics only on a nil allocator or a nil pointer
    stored under the allocator's label, and it never writes the registry.
    With parentCtx done on entry it returns at once, without a leader check
    or a campaign. *)
Theorem allocatorLeaderLoop_exit (fuel : nat) (parentCtx : Ctx)
    (allocator : ptr LocalTSOAllocator) (w : World) :
  am (snd (allocatorLeaderLoop fuel parentCtx allocator w)) = am w /\
  match fst (allocatorLeaderLoop fuel parentCtx allocator w) with
  | Returned _ =>
      allocator <> None /\
      exists evs,
        events (allocatorLeaderLoop fuel parentCtx allocator) w =
          evs ++ [EvCall (CtxDone parentCtx) true]
  | Panicked _ =>
      allocator = None \/
      exists a, allocator = Some a /\
                allocatorGroups (am w) !! lta_dcLocation a = Some None
  | Running => True
  end /\
  (forall a,
     allocator = Some a ->
     fst (handle _ (CtxDone parentCtx) (ext w)) = true ->
     fst (allocatorLeaderLoop (S fuel) parentCtx allocator w) = Returned tt /\
     events (allocatorLeaderLoop (S fuel) parentCtx allocator) w =
       [EvCall (CtxDone parentCtx) true]).
Proof.
  split; [apply allocatorLeaderLoop_heap|]. split.
  - destruct (allocatorLeaderLoop_run fuel parentCtx allocator w) as (evs & Htr & Hout).
    destruct (fst (allocatorLeaderLoop fuel parentCtx allocator w)); [|exact Hout|exact I].
    destruct Hout as (Hne & evs' & ->). split; [exact Hne|].
    exists evs'. apply events_of_trace. exact Htr.
  - intros a -> Hdone. rewrite allocatorLeaderLoop_round. cbv zeta. rewrite Hdone.
    split; [reflexivity|]. apply events_of_trace.
    rewrite allocatorLeaderLoop_round. cbv zeta. rewrite Hdone. reflexivity.
Qed.

End ElectionLoop.

(** ** The update daemon *)

Section Daemon.
Context `{Collaborators}.

Lemma spawnUpdates_run (ags : list (ptr allocatorGroup)) (w : World) :
  spawnUpdates ags w =
    (Returned tt, mkWorld _ (am w) (ext w) (trace w ++ fanOut ags) (next_ptr w)).
Proof.
  revert w. induction ags as [|ag ags IH]; intros w.
  - simpl. unfold ret. rewrite app_nil_r. destruct w; reflexivity.
  - cbn [spawnUpdates]. unfold go. run. rewrite IH. cbn [am ext trace next_ptr].
    rewrite <- !app_assoc. reflexivity.
Qed.

Lemma daemon_filters_serviceable (e : Ext) (p : ptr allocatorGroup) :
  kept_ptr [FilterUninitialized; FilterUnavailableLeadership] e p =
    match p with Some g => serviceable e g | None => false end.
Proof.
  destruct p as [g|]; [|reflexivity].
  unfold kept_ptr, kept, serviceable, FilterUninitialized, FilterUnavailableLeadership.
  simpl. rewrite !Bool.negb_involutive, Bool.andb_true_r. reflexivity.
Qed.

Lemma daemon_enumeration (w : World) :
  getAllocatorGroups [FilterUninitialized; FilterUnavailableLeadership] w =
    (Returned (daemonGroups (am w) (ext w)),
     mkWorld _ (am w) (ext w) (trace w ++ [EvRLock; EvRUnlock]) (next_ptr w)).
Proof.
  rewrite getAllocatorGroups_run. unfold daemonGroups. do 2 f_equal.
  apply filter_ext. intros p. apply daemon_filters_serviceable.
Qed.

(** One round of the daemon. *)
Lemma daemonLoop_round (fuel : nat) (t : Ticker) (serverCtx : Ctx) (w : World) :
  daemonLoop (S fuel) t serverCtx w =
    let sel := handle _ (SelectTickOrDone t serverCtx) (ext w) in
    match fst sel with
    | CaseTick =>
        daemonLoop fuel t serverCtx
          (mkWorld _ (am w) (snd sel)
             (trace w ++ daemonRound t serverCtx (daemonGroups (am w) (snd sel)))
             (next_ptr w))
    | CaseDone =>
        (Returned tt,
         mkWorld _ (am w) (snd sel)
           (trace w ++ [EvCall (SelectTickOrDone t serverCtx) CaseDone]) (next_ptr w))
    end.
Proof.
  cbn [daemonLoop]. unfold bind at 1. unfold call at 1. cbn [fst snd]. cbv zeta.
  destruct (fst (handle _ (SelectTickOrDone t serverCtx) (ext w))); [|reflexivity].
  unfold bind at 1. rewrite daemon_enumeration. cbn [am ext trace next_ptr].
  unfold bind at 1. rewrite spawnUpdates_run. cbn [am ext trace next_ptr].
  unfold bind at 1, emit at 1. cbn [am ext trace next_ptr].
  unfold daemonRound. rewrite <- !app_assoc. reflexivity.
Qed.

(** The loop of the daemon by its outcome: [states] are the collaborators'
    states in which the ticks enumerated the registry. *)
Lemma daemonLoop_run (fuel : nat) (t : Ticker) (serverCtx : Ctx) (w : World) :
  exists states,
    am (snd (daemonLoop fuel t serverCtx w)) = am w /\
    trace (snd (daemonLoop fuel t serverCtx w)) =
      trace w
        ++ concat ((fun e => daemonRound t serverCtx (daemonGroups (am w) e)) <$> states)
        ++ match fst (daemonLoop fuel t serverCtx w) with
           | Returned _ => [EvCall (SelectTickOrDone t serverCtx) CaseDone]
           | _ => []
           end /\
    match fst (daemonLoop fuel t serverCtx w) with
    | Returned u => u = tt
    | Panicked _ => False
    | Running => length states = fuel
    end.
Proof.
  revert w. induction fuel as [|fuel IH]; intros w.
  - exists []. simpl. rewrite app_nil_r. repeat split.
  - rewrite daemonLoop_round. cbv zeta.
    set (sel := handle _ (SelectTickOrDone t serverCtx) (ext w)).
    destruct (fst sel) eqn:Hsel.
    + match goal with
      | |- context [daemonLoop fuel t serverCtx ?w0] =>
          destruct (IH w0) as (states & Ham & Htr & Hout);
          destruct (daemonLoop fuel t serverCtx w0) as [r w']
      end.
      cbn [fst snd am trace] in *.
      exists (snd sel :: states). split; [exact Ham|].
      split.
      * rewrite Htr. rewrite fmap_cons. cbn [concat].
        rewrite <- !app_assoc. reflexivity.
      * destruct r; [exact Hout | exact Hout | simpl; congruence].
    + exists []. cbn [fst snd am trace]. repeat split.
Qed.

(** X13: the update daemon creates its ticker, then works in rounds: at each
    tick it enumerates, under the shared lock, the registered groups whose
    allocator is initialized and whose leadership is available at that
    moment, does wg.Add(1) and starts one updateAllocator goroutine for each
    of them, and waits for all of them before it looks at the ticker again.
    It returns only when the select reports serverCtx done, with the stop of
    its ticker as its last call; it never panics and never writes the
    registry.  A daemon cut after n rounds has made exactly n ticks. *)
Theorem AllocatorDaemon_rounds (fuel : nat) (serverCtx : Ctx) (w : World) :
  exists t states,
    events (AllocatorDaemon fuel serverCtx) w =
      [EvCall (NewTicker UpdateTimestampStep) t]
        ++ concat ((fun e => daemonRound t serverCtx (daemonGroups (am w) e)) <$> states)
        ++ match fst (AllocatorDaemon fuel serverCtx w) with
           | Returned _ => [EvCall (SelectTickOrDone t serverCtx) CaseDone;
                            EvCall (TickerStop t) tt]
           | _ => []
           end /\
    match fst (AllocatorDaemon fuel serverCtx w) with
    | Returned u => u = tt
    | Panicked _ => False
    | Running => length states = fuel
    end /\
    am (snd (AllocatorDaemon fuel serverCtx w)) = am w.
Proof.
  unfold AllocatorDaemon.
  set (tk := handle _ (NewTicker UpdateTimestampStep) (ext w)).
  set (w1 := mkWorld _ (am w) (snd tk)
               (trace w ++ [EvCall (NewTicker UpdateTimestampStep) (fst tk)]) (next_ptr w)).
  assert (Hrun : forall k : Ticker -> M unit,
             bind (call (NewTicker UpdateTimestampStep)) k w = k (fst tk) w1) by reflexivity.
  exists (fst tk).
  destruct (daemonLoop_run fuel (fst tk) serverCtx w1) as (states & Ham & Htr & Hout).
  exists states.
  assert (Hev : forall m : M unit, events m w = drop (length (trace w)) (trace (snd (m w))))
    by reflexivity.
  rewrite Hev, Hrun, defer_eq. clear Hev Hrun.
  destruct (daemonLoop fuel (fst tk) serverCtx w1) as [r w2]. cbn [fst snd] in *.
  destruct r as [u| |]; [|destruct Hout|].
  - rewrite call_unit. cbn [fst snd trace am]. rewrite Htr. subst w1. cbn [trace am].
    split; [|split; [exact Hout | exact Ham]].
    rewrite <- !app_assoc. rewrite drop_app_length. reflexivity.
  - cbn [fst snd]. rewrite Htr. subst w1. cbn [trace am].
    split; [|split; [exact Hout | exact Ham]].
    rewrite <- !app_assoc. rewrite drop_app_length. reflexivity.
Qed.

End Daemon.

(** ** Readers of the registry *)

Section Readers.
Context `{Collaborators}.

Lemma reader_intro {A} (m : M A) :
  preserves lock_neutral m -> preserves (adds shared_lock_only) m -> reader m.
Proof.
  intros Hl Ha w. destruct (Hl w) as (evs & Htr & Hlock).
  destruct (Ha w) as (evs' & Htr' & HP).
  exists evs. split; [exact Htr|]. split; [exact Hlock|].
  rewrite Htr in Htr'. apply app_inv_head in Htr'. subst evs'. exact HP.
Qed.

Lemma appendAllocators_adds (P : Event -> bool) (ags : list (ptr allocatorGroup))
    (allocators : list Allocator) :
  preserves (adds P) (appendAllocators ags allocators).
Proof.
  revert allocators. induction ags as [|ag ags IH]; intros allocators; simpl.
  - apply (preserves_ret _ (adds_refl P)).
  - walk (adds P) (adds_refl P) (adds_trans P). apply IH.
Qed.

Lemma spawnUpdates_adds (P : Event -> bool) (ags : list (ptr allocatorGroup)) :
  P (EvWgAdd 1) = true -> (forall t, P (EvGo t) = true) ->
  preserves (adds P) (spawnUpdates ags).
Proof.
  intros Hadd Hgo. induction ags as [|ag ags IH]; simpl.
  - apply (preserves_ret _ (adds_refl P)).
  - unfold go. walk (adds P) (adds_refl P) (adds_trans P);
      first [exact IH | apply adds_emit; first [exact Hadd | apply Hgo]].
Qed.

Lemma getAllocatorGroups_shared (filters : list AllocatorGroupFilter) :
  preserves (adds shared_lock_only) (getAllocatorGroups filters).
Proof. unfold getAllocatorGroups. adds_walk. Qed.

Lemma GetAllocators_lock (filters : list AllocatorGroupFilter) :
  preserves lock_neutral (GetAllocators filters).
Proof.
  unfold GetAllocators. apply (preserves_bind lock_neutral lock_neutral_trans);
    [apply getAllocatorGroups_lock | intros ags].
  apply no_lock_neutral, appendAllocators_adds.
Qed.

Lemma daemonLoop_lock (fuel : nat) (t : Ticker) (serverCtx : Ctx) :
  preserves lock_neutral (daemonLoop fuel t serverCtx).
Proof.
  induction fuel as [|fuel IH]; simpl.
  - apply (preserves_running _ lock_neutral_refl).
  - apply (preserves_bind lock_neutral lock_neutral_trans);
      [apply no_lock_neutral, adds_call; reflexivity | intros [|]].
    + apply (preserves_bind lock_neutral lock_neutral_trans);
        [apply getAllocatorGroups_lock | intros ags].
      apply (preserves_bind lock_neutral lock_neutral_trans);
        [apply no_lock_neutral, spawnUpdates_adds; reflexivity | intros _].
      apply (preserves_bind lock_neutral lock_neutral_trans);
        [apply no_lock_neutral, adds_emit; reflexivity | intros _; exact IH].
    + apply (preserves_ret lock_neutral lock_neutral_refl).
Qed.

Lemma daemonLoop_shared (fuel : nat) (t : Ticker) (serverCtx : Ctx) :
  preserves (adds shared_lock_only) (daemonLoop fuel t serverCtx).
Proof.
  induction fuel as [|fuel IH]; simpl.
  - apply (preserves_running _ (adds_refl _)).
  - adds_walk;
      first [exact IH | apply getAllocatorGroups_shared
            | apply spawnUpdates_adds; reflexivity].
Qed.

(** X14: the request path, the two look-ups, the enumeration, the update
    worker and the update daemon take the registry lock as readers only:
    none of them ever takes the exclusive lock, every shared lock they take
    is taken with the lock free, and none is held when they stop, whether
    they return, panic or are still in their loop. *)
Theorem readers_take_the_shared_lock :
  (forall dcLocation count, reader (HandleTSORequest dcLocation count)) /\
  (forall dcLocation, reader (GetAllocator dcLocation)) /\
  (forall filters, reader (getAllocatorGroups filters)) /\
  (forall filters, reader (GetAllocators filters)) /\
  (forall ag, reader (updateAllocator ag)) /\
  (forall fuel serverCtx, reader (AllocatorDaemon fuel serverCtx)).
Proof.
  repeat split; intros; apply reader_intro.
  - apply HandleTSORequest_lock.
  - unfold HandleTSORequest. adds_walk.
  - apply GetAllocator_lock.
  - unfold GetAllocator. adds_walk.
  - apply getAllocatorGroups_lock.
  - apply getAllocatorGroups_shared.
  - apply GetAllocators_lock.
  - unfold GetAllocators. adds_walk;
      first [apply getAllocatorGroups_shared | apply appendAllocators_adds].
  - apply updateAllocator_lock.
  - unfold updateAllocator. adds_walk.
  - unfold AllocatorDaemon.
    apply (preserves_bind lock_neutral lock_neutral_trans);
      [apply no_lock_neutral, adds_call; reflexivity | intros t].
    apply (preserves_defer lock_neutral lock_neutral_trans);
      [apply no_lock_neutral, adds_call; reflexivity | apply daemonLoop_lock].
  - unfold AllocatorDaemon. adds_walk. apply daemonLoop_shared.
Qed.

End Readers.

(** ** Election loops started by the set-up *)

Section LoopsStarted.
Context `{Collaborators}.

Lemma setUpAll_loops (calls : list SetUpArgs) (w : World) :
  exists evs,
    trace (setUpAll calls w) = trace w ++ evs /\
    Forall2 starts_loop_of (localCalls calls) (List.filter is_leaderLoop_start evs).
Proof.
  revert w. induction calls as [|c calls IH]; intros w.
  - exists []. simpl. rewrite app_nil_r. split; [reflexivity | constructor].
  - cbn [setUpAll].
    destruct c as [parentCtx parentCancel dc leadership]. cbn [sa_parentCtx
      sa_parentCancel sa_dcLocation sa_leadership].
    match goal with
    | |- context [setUpAll calls ?w0] => destruct (IH w0) as (evs & Htr & Hloops)
    end.
    unfold localCalls. cbn [List.filter sa_dcLocation]. fold (localCalls calls).
    destruct (decide (dc = GlobalDCLocation)) as [Hdc|Hdc].
    + rewrite (SetUpAllocator_global _ _ _ _ _ Hdc) in Htr. cbn [snd trace] in Htr.
      rewrite (SetUpAllocator_global _ _ _ _ _ Hdc). cbn [snd].
      eexists. split; [rewrite Htr, <- app_assoc; reflexivity|].
      rewrite Hdc, String.eqb_refl. cbn [negb]. exact Hloops.
    + rewrite (SetUpAllocator_local _ _ _ _ _ Hdc) in Htr. cbn [snd trace] in Htr.
      rewrite (SetUpAllocator_local _ _ _ _ _ Hdc). cbn [snd].
      eexists. split; [rewrite Htr, <- app_assoc; reflexivity|].
      pose proof Hdc as Hneq. apply String.eqb_neq in Hneq. rewrite Hneq. cbn [negb].
      cbn [app List.filter is_leaderLoop_start]. constructor; [|exact Hloops].
      unfold setUpAllocatorOf. rewrite Hneq. cbn [asLocalTSOAllocator].
      eexists. split; [reflexivity|]. split; reflexivity.
Qed.

(** X15: every SetUpAllocator call for a label other than GLOBAL starts one
    election loop, on the call's parent context and on a non-nil local
    allocator of the call's label and leadership, whether or not the label
    was registered before; a call for GLOBAL starts none.  So after a run of
    set-up calls the loops started are as many as the calls for local labels,
    while the registry holds one group for each distinct label. *)
Theorem SetUpAllocator_starts_a_loop_per_call (calls : list SetUpArgs) (w : World) :
  exists evs,
    trace (setUpAll calls w) = trace w ++ evs /\
    Forall2 starts_loop_of (localCalls calls) (List.filter is_leaderLoop_start evs) /\
    length (List.filter is_leaderLoop_start evs) = length (localCalls calls) /\
    dom (allocatorGroups (am (setUpAll calls w))) =
      dom (allocatorGroups (am w)) ∪ list_to_set (sa_dcLocation <$> calls).
Proof.
  destruct (setUpAll_loops calls w) as (evs & Htr & Hloops).
  exists evs. split; [exact Htr|]. split; [exact Hloops|].
  split; [symmetry; exact (Forall2_length _ _ _ Hloops) | apply setUpAll_dom].
Qed.

End LoopsStarted.

(** * Runs on the concrete collaborators *)

#[local] Existing Instance Demo.demo.

Example Join_local : GoPath.Join ["/pd/tso"; "dc-1"] = "/pd/tso/dc-1".
Proof. reflexivity. Qed.

Example Join_cleans : GoPath.Join ["/pd//tso/"; "a/../dc-2"] = "/pd/tso/dc-2".
Proof. reflexivity. Qed.

Example Join_dotdot : GoPath.Join ["../x"; "../../y"] = "../../y".
Proof. reflexivity. Qed.

Example demo_setup_global :
  Demo.worldG [] =
  mkWorld Demo.demo
    (mkAllocatorManager {[ "global" := Some Demo.globalGroup ]} 0 "/pd/tso"
       (3000 * Millisecond)%Z 0)
    (Demo.mkDemoExt [] [Demo.globalAlloc] [7] 100 [] 10 2)
    [EvLock; EvCall (Initialize Demo.globalAlloc) None; EvUnlock] 1.
Proof. vm_compute. reflexivity. Qed.

(** ** The update worker, run *)

(** UpdateTSO fails: the parent is cancelled. *)
Lemma updateAllocator_update_failure_witness :
  fst (handle _ (CtxDone 1) (ext (Demo.worldG ["UpdateTSO"]))) = false /\
  fst (handle _ (LeadershipCheck 7) (ext (Demo.worldG ["UpdateTSO"]))) = true /\
  fst (updateAllocator (Some Demo.globalGroup) (Demo.worldG ["UpdateTSO"])) = Returned tt /\
  events (updateAllocator (Some Demo.globalGroup)) (Demo.worldG ["UpdateTSO"]) =
    [EvCall (CtxDone 1) false;
     EvCall (LeadershipCheck 7) true;
     EvCall (UpdateTSO Demo.globalAlloc) (Some (ErrOther "etcd: save timestamp failed"));
     EvCall (CallCancel 1) tt;
     EvWgDone].
Proof.
  split; [reflexivity|]. split; [reflexivity|].
  apply (updateAllocator_update_failure_cancels_parent Demo.globalGroup
           (Demo.worldG ["UpdateTSO"])); reflexivity.
Defined.

(** UpdateTSO succeeds: no cancel. *)
Example updateAllocator_update_ok :
  events (updateAllocator (Some Demo.globalGroup)) (Demo.worldG []) =
    [EvCall (CtxDone 1) false;
     EvCall (LeadershipCheck 7) true;
     EvCall (UpdateTSO Demo.globalAlloc) None;
     EvWgDone].
Proof. vm_compute. reflexivity. Qed.

(** ** Reset pairing, run *)

(** C1 as stated fails on the update path: with the parent context cancelled
    the worker resets the allocator of the registered group, outside any lock
    and with no reset of its leadership, which still passes its check
    afterwards. *)
Lemma updateAllocator_reset_unpaired :
  allocatorGroups (am Demo.worldCancelled) !! "global" = Some (Some Demo.globalGroup) /\
  existsb (is_Reset_of Demo.globalAlloc)
    (events (updateAllocator (Some Demo.globalGroup)) Demo.worldCancelled) = true /\
  existsb (is_LeadershipReset_of 7)
    (events (updateAllocator (Some Demo.globalGroup)) Demo.worldCancelled) = false /\
  reset_paired Demo.globalGroup false
    (events (updateAllocator (Some Demo.globalGroup)) Demo.worldCancelled) = false /\
  fst (handle _ (LeadershipCheck 7)
         (ext (snd (updateAllocator (Some Demo.globalGroup) Demo.worldCancelled)))) = true.
Proof. vm_compute. repeat split. Qed.

Lemma resetAllocatorGroup_pairs_resets_witness :
  allocatorGroups (am Demo.worldCancelled) !! "global" = Some (Some Demo.globalGroup) /\
  fst (handle _ (CtxDone 1) (ext Demo.worldCancelled)) = true /\
  events (resetAllocatorGroup "global") Demo.worldCancelled =
    [EvLock; EvCall (Reset Demo.globalAlloc) tt; EvCall (LeadershipReset 7) tt; EvUnlock] /\
  events (updateAllocator (Some Demo.globalGroup)) Demo.worldCancelled =
    [EvCall (CtxDone 1) true; EvCall (Reset Demo.globalAlloc) tt; EvWgDone].
Proof.
  assert (Hg : allocatorGroups (am Demo.worldCancelled) !! "global"
               = Some (Some Demo.globalGroup)) by (vm_compute; reflexivity).
  assert (Hd : fst (handle _ (CtxDone 1) (ext Demo.worldCancelled)) = true)
    by reflexivity.
  destruct (resetAllocatorGroup_pairs_resets "global" Demo.globalGroup
              Demo.worldCancelled Hg) as [[Hreset _] Hupdate].
  destruct (Hupdate Hd) as [Hev _].
  split; [exact Hg|]. split; [exact Hd|]. split; [exact Hreset | exact Hev].
Defined.

(** ** Dispatch, run *)

(** C3 as stated fails: for the registered label "global" GenerateTSO is
    called between RLock and RUnlock. *)
Lemma HandleTSORequest_generate_inside_rlock :
  allocatorGroups (am (Demo.quiet (Demo.worldG []))) !! "global"
    = Some (Some Demo.globalGroup) /\
  events (HandleTSORequest "global" 5) (Demo.quiet (Demo.worldG [])) =
    [EvRLock;
     EvCall (GenerateTSO Demo.globalAlloc 5) (mkTimestamp 0 105, None);
     EvRUnlock] /\
  generate_outside_rlock 0
    (events (HandleTSORequest "global" 5) (Demo.quiet (Demo.worldG []))) = false.
Proof. vm_compute. repeat split. Qed.

Lemma HandleTSORequest_generates_under_rlock_witness :
  allocatorGroups (am (Demo.worldG [])) !! "global" = Some (Some Demo.globalGroup) /\
  events (HandleTSORequest "global" 5) (Demo.worldG []) =
    [EvRLock;
     EvCall (GenerateTSO Demo.globalAlloc 5) (mkTimestamp 0 105, None);
     EvRUnlock].
Proof.
  assert (Hg : allocatorGroups (am (Demo.worldG [])) !! "global"
               = Some (Some Demo.globalGroup)) by (vm_compute; reflexivity).
  split; [exact Hg|].
  exact (proj1 (HandleTSORequest_generates_under_rlock "global" 5 Demo.globalGroup
                  (Demo.worldG []) Hg)).
Defined.

Lemma demo_registry_wf : registry_wf (allocatorGroups (am (Demo.worldG []))).
Proof.
  apply (setUpAll_wf [mkSetUpArgs 1 1 "global" 7] (Demo.world0 [])).
  intros dc. simpl. rewrite lookup_empty. discriminate.
Qed.

Lemma demo_GenerateTSO_errors (a : Allocator) (count : Z) (e : Demo.DemoExt) (args : string) :
  snd (fst (Demo.demo_handle _ (GenerateTSO a count) e)) <> Some (ErrGetAllocator args).
Proof.
  simpl.
  destruct (bool_decide (a ∈ Demo.d_initialized e)
            && bool_decide (Demo.allocLeadership a ∈ Demo.d_leases e)); discriminate.
Qed.

(** S2, the unknown label, and the registered one. *)
Lemma HandleTSORequest_result_witness :
  registry_wf (allocatorGroups (am (Demo.worldG []))) /\
  fst (HandleTSORequest "dc-east" 1 (Demo.worldG [])) =
    Returned (zeroTimestamp,
              Some (ErrGetAllocator "dc-east allocator not found, generate timestamp failed")) /\
  (is_ErrGetAllocator_for "global" (fst (HandleTSORequest "global" 5 (Demo.worldG [])))
   <-> allocatorGroups (am (Demo.worldG [])) !! "global" = None).
Proof.
  split; [exact demo_registry_wf|]. split.
  - exact (proj1 (HandleTSORequest_result "dc-east" 1 (Demo.worldG []) demo_registry_wf)).
  - apply (proj2 (HandleTSORequest_result "global" 5 (Demo.worldG []) demo_registry_wf)).
    intros g args _. apply demo_GenerateTSO_errors.
Defined.

Example HandleTSORequest_global_answer :
  fst (HandleTSORequest "global" 5 (Demo.worldG [])) = Returned (mkTimestamp 0 105, None).
Proof. vm_compute. reflexivity. Qed.

(** A nil pointer stored under a label makes the dispatcher panic. *)
Example HandleTSORequest_nil_entry :
  fst (HandleTSORequest "dc-nil" 1 Demo.worldNil) =
    Panicked "invalid memory address or nil pointer dereference".
Proof. vm_compute. reflexivity. Qed.

(** ** Set-up, run *)

(** The GLOBAL allocator fails to initialize: the error comes back and the
    group stays registered; a local set-up returns nil at once. *)
Lemma SetUpAllocator_initialization_witness :
  fst (SetUpAllocator 1 1 "global" 7 (Demo.world0 ["Initialize"])) =
    Returned (Some (ErrOther "etcd: load timestamp failed")) /\
  allocatorGroups (am (Demo.worldG ["Initialize"])) !! "global" =
    Some (Some Demo.globalGroup) /\
  fst (SetUpAllocator 2 2 "dc-1" 8 (Demo.worldG ["Initialize"])) = Returned None /\
  events (SetUpAllocator 2 2 "dc-1" 8) (Demo.worldG ["Initialize"]) =
    [EvLock; EvGo (TaskAllocatorLeaderLoop 2 (Some Demo.localAlloc)); EvUnlock].
Proof.
  destruct (SetUpAllocator_initialization 1 1 "global" 7 (Demo.world0 ["Initialize"]))
    as (Hreg & Hglobal & _).
  destruct (Hglobal eq_refl) as [Hres _].
  destruct (SetUpAllocator_initialization 2 2 "dc-1" 8 (Demo.worldG ["Initialize"]))
    as (_ & _ & Hlocal).
  destruct Hlocal as (Hnil & _ & Hev & _); [discriminate|].
  split; [exact Hres|]. split; [exact Hreg|]. split; [exact Hnil | exact Hev].
Defined.

(** Four calls over three labels leave three groups. *)
Lemma SetUpAllocator_unique_registration_witness :
  size (allocatorGroups (am (setUpAll Demo.fourCalls (Demo.world0 [])))) = 3 /\
  is_Some (allocatorGroups (am (setUpAll Demo.fourCalls (Demo.world0 []))) !! "dc-2") /\
  size (allocatorGroups
          (am (snd (SetUpAllocator 5 5 "dc-2" 9 (setUpAll Demo.fourCalls (Demo.world0 []))))))
    = 3.
Proof.
  destruct (SetUpAllocator_unique_registration (H := Demo.demo) Demo.fourCalls 0 "/pd/tso"
              (3000 * Millisecond)%Z 0 (Demo.cluster []))
    as (Hsize & _ & _ & Hin & Hreplace).
  assert (Hsome : is_Some (allocatorGroups (am (setUpAll Demo.fourCalls (Demo.world0 [])))
                             !! "dc-2")).
  { destruct (Hin "dc-2") as (g & Hg & _).
    - vm_compute. repeat constructor.
    - exists (Some g). exact Hg. }
  split; [exact Hsize|]. split; [exact Hsome|].
  destruct (Hreplace 5 5 "dc-2" 9 Hsome) as [Hsame _].
  etransitivity; [exact Hsame | exact Hsize].
Defined.

(** ** The campaign helper, run *)

(** Campaign won, Initialize fails: the helper resets the registered group and
    cancels the child context 10. *)
Lemma campaignAllocatorLeader_exit_witness :
  fst (handle _ (CampaignAllocatorLeader Demo.localAlloc defaultAllocatorLeaderLease)
         (ext (Demo.worldL ["Initialize"]))) = None /\
  fst (campaignAllocatorLeader 5 2 Demo.localAlloc (Demo.worldL ["Initialize"])) = Returned tt /\
  events (campaignAllocatorLeader 5 2 Demo.localAlloc) (Demo.worldL ["Initialize"]) =
    [EvCall (CampaignAllocatorLeader Demo.localAlloc 3) None;
     EvCall (WithCancel 2) (10, 10);
     EvGo (TaskKeepAllocatorLeader Demo.localAlloc 10);
     EvCall (Initialize (LocalAllocator Demo.localAlloc))
       (Some (ErrOther "etcd: load timestamp failed"));
     EvLock;
     EvCall (Reset (LocalAllocator Demo.localAlloc)) tt;
     EvCall (LeadershipReset 8) tt;
     EvUnlock;
     EvCall (CallCancel 10) tt].
Proof.
  assert (Hc : fst (handle _ (CampaignAllocatorLeader Demo.localAlloc
                                defaultAllocatorLeaderLease)
                      (ext (Demo.worldL ["Initialize"]))) = None) by reflexivity.
  split; [exact Hc|].
  destruct (campaignAllocatorLeader_exit 5 2 Demo.localAlloc (Demo.worldL ["Initialize"]) Hc)
    as [_ Hinit].
  apply (Hinit (ErrOther "etcd: load timestamp failed") Demo.localGroup).
  - reflexivity.
  - vm_compute. reflexivity.
Defined.

(** S4, lease expiry: the lease is lost at the third tick; the helper stops the
    ticker, resets the group and cancels the child context. *)
Example campaignAllocatorLeader_lease_expiry :
  fst (campaignAllocatorLeader 5 2 Demo.localAlloc (Demo.worldL [])) = Returned tt /\
  events (campaignAllocatorLeader 5 2 Demo.localAlloc) (Demo.worldL []) =
    [EvCall (CampaignAllocatorLeader Demo.localAlloc 3) None;
     EvCall (WithCancel 2) (10, 10);
     EvGo (TaskKeepAllocatorLeader Demo.localAlloc 10);
     EvCall (Initialize (LocalAllocator Demo.localAlloc)) None;
     EvCall (EnableAllocatorLeader Demo.localAlloc) tt;
     EvCall (NewTicker leaderTickInterval) 11;
     EvCall (SelectTickOrDone 11 10) CaseTick;
     EvCall (IsStillAllocatorLeader Demo.localAlloc) true;
     EvCall (SelectTickOrDone 11 10) CaseTick;
     EvCall (IsStillAllocatorLeader Demo.localAlloc) true;
     EvCall (SelectTickOrDone 11 10) CaseTick;
     EvCall (IsStillAllocatorLeader Demo.localAlloc) false;
     EvCall (TickerStop 11) tt;
     EvLock;
     EvCall (Reset (LocalAllocator Demo.localAlloc)) tt;
     EvCall (LeadershipReset 8) tt;
     EvUnlock;
     EvCall (CallCancel 10) tt].
Proof. vm_compute. split; reflexivity. Qed.

(** With too small a step budget the helper is still leading: nothing
    deferred has run. *)
Example campaignAllocatorLeader_still_leading :
  fst (campaignAllocatorLeader 2 2 Demo.localAlloc (Demo.worldL [])) = Running /\
  existsb (is_CallCancel_of 10)
    (events (campaignAllocatorLeader 2 2 Demo.localAlloc) (Demo.worldL [])) = false.
Proof. vm_compute. split; reflexivity. Qed.

(** ** Enumeration, run *)

Lemma getAllocatorGroups_exact_witness :
  fst (getAllocatorGroups [Demo.FilterGlobal] (Demo.worldL [])) =
    Returned [Some Demo.localGroup] /\
  (Some Demo.localGroup ∈ [Some Demo.localGroup] <->
   exists g, Some Demo.localGroup = Some g /\
     (exists dc, allocatorGroups (am (Demo.worldL [])) !! dc = Some (Some g)) /\
     (forall f, f ∈ [Demo.FilterGlobal] -> f g (ext (Demo.worldL [])) = false)).
Proof.
  destruct (getAllocatorGroups_exact [Demo.FilterGlobal] (Demo.worldL []))
    as (ags & Hres & _ & _ & Hmem).
  assert (Hags : ags = [Some Demo.localGroup]).
  { assert (Hrun : fst (getAllocatorGroups [Demo.FilterGlobal] (Demo.worldL []))
                   = Returned [Some Demo.localGroup]) by (vm_compute; reflexivity).
    rewrite Hrun in Hres. injection Hres as <-. reflexivity. }
  subst ags. split; [exact Hres | apply Hmem].
Defined.

(** The daemon's filters: the local group is neither initialized nor leading
    before its campaign, so one tick updates the global group only. *)
Example daemon_filters :
  fst (getAllocatorGroups [FilterUninitialized; FilterUnavailableLeadership] (Demo.worldL []))
    = Returned [Some Demo.globalGroup].
Proof. vm_compute. reflexivity. Qed.

(** A nil entry is skipped by the enumeration. *)
Example GetAllocators_nil_entry :
  fst (getAllocatorGroups [] Demo.worldNil) = Returned [Some Demo.globalGroup] /\
  fst (GetAllocators [] Demo.worldNil) = Returned [Demo.globalAlloc].
Proof. vm_compute. split; reflexivity. Qed.

(** ** Paths, run *)

Example getAllocatorPath_global :
  getAllocatorPath (am (Demo.world0 [])) "global" = "/pd/tso".
Proof. reflexivity. Qed.

Example getAllocatorPath_local :
  getAllocatorPath (am (Demo.world0 [])) "dc-1" = "/pd/tso/dc-1".
Proof. reflexivity. Qed.

(** path.Join cleans: a label that adds no element gives the root again. *)
Example getAllocatorPath_dot :
  getAllocatorPath (am (Demo.world0 [])) "." = "/pd/tso".
Proof. reflexivity. Qed.


(** ** The further properties, run *)

(** Lease 8 is not held: the worker of the "dc-1" group sleeps and returns. *)
Lemma updateAllocator_without_leadership_witness :
  fst (handle _ (CtxDone 2) (ext (Demo.worldL []))) = false /\
  fst (handle _ (LeadershipCheck 8) (ext (Demo.worldL []))) = false /\
  fst (updateAllocator (Some Demo.localGroup) (Demo.worldL [])) = Returned tt /\
  events (updateAllocator (Some Demo.localGroup)) (Demo.worldL []) =
    [EvCall (CtxDone 2) false;
     EvCall (LeadershipCheck 8) false;
     EvCall (Sleep (200 * Millisecond)%Z) tt;
     EvWgDone].
Proof.
  split; [reflexivity|]. split; [reflexivity|].
  destruct (updateAllocator_without_leadership Demo.localGroup (Demo.worldL []))
    as (Hret & Hev & _); [reflexivity | reflexivity |].
  split; [exact Hret | exact Hev].
Defined.

(** The labels "dc-1" and "dc-2" under the root "/pd/tso". *)
Lemma getAllocatorPath_distinct_witness :
  GoPath.clean_absolute "/pd/tso" /\
  GoPath.plain_label "dc-1" = true /\
  GoPath.plain_label "dc-2" = true /\
  "dc-1" <> "dc-2" /\
  getAllocatorPath (am (Demo.world0 [])) "dc-1" <>
    getAllocatorPath (am (Demo.world0 [])) "dc-2".
Proof.
  assert (Hroot : GoPath.clean_absolute "/pd/tso").
  { exists [list_ascii_of_string "pd"; list_ascii_of_string "tso"].
    split; [discriminate|]. split; [|reflexivity].
    repeat constructor. }
  split; [exact Hroot|]. split; [reflexivity|]. split; [reflexivity|].
  split; [discriminate|].
  apply (getAllocatorPath_distinct (am (Demo.world0 [])) "dc-1" "dc-2");
    [exact Hroot | reflexivity | reflexivity | discriminate].
Defined.

(** Without the hypothesis on the labels the paths can collide: path.Join
    cleans "dc-1/" to the element "dc-1". *)
Example getAllocatorPath_collision :
  getAllocatorPath (am (Demo.world0 [])) "dc-1/" =
    getAllocatorPath (am (Demo.world0 [])) "dc-1".
Proof. reflexivity. Qed.

(** The lease is held at the first two ticks: a helper cut after two rounds
    is still leading, and has torn nothing down. *)
Lemma campaignAllocatorLeader_keeps_leading_witness :
  fst (handle _ (CampaignAllocatorLeader Demo.localAlloc defaultAllocatorLeaderLease)
         (ext (Demo.worldL []))) = None /\
  fst (handle _ (Initialize (LocalAllocator Demo.localAlloc))
         (ext (afterCampaign 2 Demo.localAlloc (Demo.worldL [])))) = None /\
  fst (campaignAllocatorLeader 2 2 Demo.localAlloc (Demo.worldL [])) = Running /\
  forallb (fun e => negb (is_teardown e) && negb (is_lock_event e))
    (events (campaignAllocatorLeader 2 2 Demo.localAlloc) (Demo.worldL [])) = true /\
  events (campaignAllocatorLeader 2 2 Demo.localAlloc) (Demo.worldL []) =
    [EvCall (CampaignAllocatorLeader Demo.localAlloc 3) None;
     EvCall (WithCancel 2) (10, 10);
     EvGo (TaskKeepAllocatorLeader Demo.localAlloc 10);
     EvCall (Initialize (LocalAllocator Demo.localAlloc)) None;
     EvCall (EnableAllocatorLeader Demo.localAlloc) tt;
     EvCall (NewTicker leaderTickInterval) 11;
     EvCall (SelectTickOrDone 11 10) CaseTick;
     EvCall (IsStillAllocatorLeader Demo.localAlloc) true;
     EvCall (SelectTickOrDone 11 10) CaseTick;
     EvCall (IsStillAllocatorLeader Demo.localAlloc) true].
Proof.
  split; [reflexivity|]. split; [reflexivity|]. split; [reflexivity|].
  destruct (campaignAllocatorLeader_keeps_leading 2 2 Demo.localAlloc (Demo.worldL []))
    as (t & ticks & _ & _ & _ & Hquiet & _); [reflexivity..|].
  split; [exact Hquiet|]. vm_compute. reflexivity.
Defined.

(** The lease is lost at the third tick: the helper stops its ticker, resets
    the "dc-1" group under the lock and cancels the child context 10. *)
Lemma campaignAllocatorLeader_step_down_witness :
  fst (handle _ (CampaignAllocatorLeader Demo.localAlloc defaultAllocatorLeaderLease)
         (ext (Demo.worldL []))) = None /\
  fst (handle _ (Initialize (LocalAllocator Demo.localAlloc))
         (ext (afterCampaign 2 Demo.localAlloc (Demo.worldL [])))) = None /\
  fst (campaignAllocatorLeader 5 2 Demo.localAlloc (Demo.worldL [])) <> Running /\
  exists t ticks,
    left_leading t 10 Demo.localAlloc ticks /\
    events (campaignAllocatorLeader 5 2 Demo.localAlloc) (Demo.worldL []) =
      leadingPrefix 2 Demo.localAlloc (10, 10) t ++ ticks
        ++ [EvCall (TickerStop t) tt; EvLock;
            EvCall (Reset (LocalAllocator Demo.localAlloc)) tt;
            EvCall (LeadershipReset 8) tt;
            EvUnlock; EvCall (CallCancel 10) tt] /\
    fst (campaignAllocatorLeader 5 2 Demo.localAlloc (Demo.worldL [])) = Returned tt.
Proof.
  assert (Hend : fst (campaignAllocatorLeader 5 2 Demo.localAlloc (Demo.worldL []))
                   <> Running) by (vm_compute; discriminate).
  split; [reflexivity|]. split; [reflexivity|]. split; [exact Hend|].
  destruct (campaignAllocatorLeader_step_down 5 2 Demo.localAlloc (Demo.worldL []))
    as (t & ticks & Hleft & Hev & Hret & _); [reflexivity | reflexivity | exact Hend |].
  exists t, ticks. split; [exact Hleft|]. split; [exact Hev|].
  apply Hret. vm_compute. discriminate.
Defined.

(** The election loop whose parent context is the one its campaign cancels:
    one campaign, then the loop sees the context done and returns. *)
Example allocatorLeaderLoop_returns :
  fst (allocatorLeaderLoop 6 10 (Some Demo.localAlloc) (Demo.worldL [])) = Returned tt /\
  last (events (allocatorLeaderLoop 6 10 (Some Demo.localAlloc)) (Demo.worldL [])) =
    Some (EvCall (CtxDone 10) true).
Proof. vm_compute. split; reflexivity. Qed.

(** The daemon on the world with the "global" and "dc-1" groups: only the
    global allocator is initialized and leads, so each tick updates it alone;
    server context 2 is alive, the daemon is cut after two rounds. *)
Example AllocatorDaemon_two_rounds :
  events (AllocatorDaemon 2 2) (Demo.worldL []) =
    [EvCall (NewTicker UpdateTimestampStep) 10;
     EvCall (SelectTickOrDone 10 2) CaseTick; EvRLock; EvRUnlock;
     EvWgAdd 1; EvGo (TaskUpdateAllocator (Some Demo.globalGroup)); EvWgWait;
     EvCall (SelectTickOrDone 10 2) CaseTick; EvRLock; EvRUnlock;
     EvWgAdd 1; EvGo (TaskUpdateAllocator (Some Demo.globalGroup)); EvWgWait].
Proof. vm_compute. reflexivity. Qed.

(** With the server context cancelled the daemon returns at its first select
    and stops its ticker. *)
Example AllocatorDaemon_server_closed :
  fst (AllocatorDaemon 3 1 Demo.worldCancelled) = Returned tt /\
  events (AllocatorDaemon 3 1) Demo.worldCancelled =
    [EvCall (NewTicker UpdateTimestampStep) 10;
     EvCall (SelectTickOrDone 10 1) CaseDone;
     EvCall (TickerStop 10) tt].
Proof. vm_compute. split; reflexivity. Qed.

(** Four set-up calls, "dc-1" twice: three election loops are started, two
    of them for "dc-1", and the registry holds three groups. *)
Example SetUpAllocator_two_loops_one_group :
  List.filter is_leaderLoop_start (trace (setUpAll Demo.fourCalls (Demo.world0 []))) =
    [EvGo (TaskAllocatorLeaderLoop 2
             (Some (mkLocalTSOAllocator 1 0 8 "/pd/tso/dc-1" "dc-1" (3000 * Millisecond)%Z 0)));
     EvGo (TaskAllocatorLeaderLoop 3
             (Some (mkLocalTSOAllocator 2 0 9 "/pd/tso/dc-2" "dc-2" (3000 * Millisecond)%Z 0)));
     EvGo (TaskAllocatorLeaderLoop 4
             (Some (mkLocalTSOAllocator 3 0 8 "/pd/tso/dc-1" "dc-1" (3000 * Millisecond)%Z 0)))] /\
  size (dom (allocatorGroups (am (setUpAll Demo.fourCalls (Demo.world0 []))))) = 3.
Proof. vm_compute. split; reflexivity. Qed.
